(** * Rockchip USB2.0 PHY (Innosilicon IP) driver: model and properties

    A shallow embedding of
    [drivers/phy/rockchip/phy-rockchip-inno-usb2.c]: the bit-field
    descriptors and the per-chip configuration tables, the two register
    helpers [property_enable] and [property_enabled], the PHY and clock
    operations, and the configuration lookup of the probe routine.

    C [unsigned int] values are integers in [0, 2^32) with the wrap-around of
    shifts written out ([u32]); the general register file behind [reg_base]
    is a finite map from addresses to register contents; every operation
    runs in a small state monad over the hardware state, which also records
    the trace of register accesses, delays and logged errors. *)

From Stdlib Require Import ZArith Lia Bool Ascii String.
From stdpp Require Import gmap strings list.

Local Open Scope Z_scope.

(** ** Machine integers *)

(** Truncation to a C [unsigned int]. *)
Definition u32 (x : Z) : Z := x mod 2 ^ 32.

(** Truncation to a C [unsigned long] of [BITS_PER_LONG] bits. *)
Definition BITS_PER_LONG : Z := 64.
Definition ulong (x : Z) : Z := x mod 2 ^ BITS_PER_LONG.

(** Modelled from the spec: the [bitmask(bit_hi, bit_lo)] of the write
    operation; the macro [GENMASK] comes from a header that is not part of
    the driver file.  It is written here the way [linux/bitops.h] has it,
    [((~0UL) << l) & (~0UL >> (BITS_PER_LONG - 1 - h))], on unsigned longs. *)
Definition GENMASK (h l : Z) : Z :=
  Z.land (ulong (Z.shiftl (Z.ones BITS_PER_LONG) l))
         (Z.shiftr (Z.ones BITS_PER_LONG) (BITS_PER_LONG - 1 - h)).

Definition BIT_WRITEABLE_SHIFT : Z := 16.

(** Error numbers used by the driver (from [errno.h]). *)
Definition EINVAL : Z := 22.
Definition ENOSYS : Z := 38.
Definition EOVERFLOW : Z := 75.

(** ** Data model *)

Inductive rockchip_usb2phy_port_id : Set :=
  | USB2PHY_PORT_OTG
  | USB2PHY_PORT_HOST.

(** The numeric value of the enumerators. *)
Definition port_id_value (id : rockchip_usb2phy_port_id) : Z :=
  match id with
  | USB2PHY_PORT_OTG => 0
  | USB2PHY_PORT_HOST => 1
  end.

Definition USB2PHY_NUM_PORTS : Z := 2.

Record usb2phy_reg : Set := mk_reg {
  offset : Z;
  bitend : Z;
  bitstart : Z;
  disable : Z;
  enable : Z
}.

(** A member left out of an initializer is zero-initialized. *)
Definition reg_unset : usb2phy_reg := mk_reg 0 0 0 0 0.

Record rockchip_usb2phy_port_cfg : Set := mk_port_cfg {
  phy_sus : usb2phy_reg;
  bvalid_det_en : usb2phy_reg;
  bvalid_det_st : usb2phy_reg;
  bvalid_det_clr : usb2phy_reg;
  ls_det_en : usb2phy_reg;
  ls_det_st : usb2phy_reg;
  ls_det_clr : usb2phy_reg;
  utmi_avalid : usb2phy_reg;
  utmi_bvalid : usb2phy_reg;
  utmi_ls : usb2phy_reg;
  utmi_hstdet : usb2phy_reg
}.

Definition port_cfg_unset : rockchip_usb2phy_port_cfg :=
  mk_port_cfg reg_unset reg_unset reg_unset reg_unset reg_unset reg_unset
              reg_unset reg_unset reg_unset reg_unset reg_unset.

(** [port_cfgs] is the array indexed by the port id. *)
Record rockchip_usb2phy_cfg : Set := mk_cfg {
  reg : Z;
  clkout_ctl : usb2phy_reg;
  port_cfgs : rockchip_usb2phy_port_id -> rockchip_usb2phy_port_cfg
}.

(** The all-zero entry that closes every table. *)
Definition cfg_sentinel : rockchip_usb2phy_cfg :=
  mk_cfg 0 reg_unset (fun _ => port_cfg_unset).

(** A field is absent when the table leaves it zero-initialized. *)
Definition reg_absent (r : usb2phy_reg) : bool :=
  (offset r =? 0) && (bitend r =? 0) && (bitstart r =? 0)
  && (disable r =? 0) && (enable r =? 0).

(** The invariant of a bit field: the members are [unsigned int]s, the range
    is not empty and lies in the register, and both encodings fit in it. *)
Definition reg_wf (r : usb2phy_reg) : Prop :=
  0 <= offset r < 2 ^ 32 /\
  0 <= bitstart r <= bitend r /\ bitend r <= 31 /\
  0 <= disable r < 2 ^ (bitend r - bitstart r + 1) /\
  0 <= enable r < 2 ^ (bitend r - bitstart r + 1).

(** The field lies in the half of the register that the write-enable mask
    of the upper half covers. *)
Definition reg_writeable (r : usb2phy_reg) : Prop :=
  bitend r < BIT_WRITEABLE_SHIFT.

(** ** The configuration tables *)

Module Tables.

Definition rk3399_usb2phy_cfgs : list rockchip_usb2phy_cfg :=
  [ {| reg := 0xe450;
       clkout_ctl := mk_reg 0xe450 4 4 1 0;
       port_cfgs := fun id =>
         match id with
         | USB2PHY_PORT_OTG =>
             {| phy_sus := mk_reg 0xe454 1 0 2 1;
                bvalid_det_en := mk_reg 0xe3c0 3 3 0 1;
                bvalid_det_st := mk_reg 0xe3e0 3 3 0 1;
                bvalid_det_clr := mk_reg 0xe3d0 3 3 0 1;
                ls_det_en := reg_unset;
                ls_det_st := reg_unset;
                ls_det_clr := reg_unset;
                utmi_avalid := mk_reg 0xe2ac 7 7 0 1;
                utmi_bvalid := mk_reg 0xe2ac 12 12 0 1;
                utmi_ls := reg_unset;
                utmi_hstdet := reg_unset |}
         | USB2PHY_PORT_HOST =>
             {| phy_sus := mk_reg 0xe458 1 0 0x2 0x1;
                bvalid_det_en := reg_unset;
                bvalid_det_st := reg_unset;
                bvalid_det_clr := reg_unset;
                ls_det_en := mk_reg 0xe3c0 6 6 0 1;
                ls_det_st := mk_reg 0xe3e0 6 6 0 1;
                ls_det_clr := mk_reg 0xe3d0 6 6 0 1;
                utmi_avalid := reg_unset;
                utmi_bvalid := reg_unset;
                utmi_ls := mk_reg 0xe2ac 22 21 0 1;
                utmi_hstdet := mk_reg 0xe2ac 23 23 0 1 |}
         end |};
    {| reg := 0xe460;
       clkout_ctl := mk_reg 0xe460 4 4 1 0;
       port_cfgs := fun id =>
         match id with
         | USB2PHY_PORT_OTG =>
             {| phy_sus := mk_reg 0xe464 1 0 2 1;
                bvalid_det_en := mk_reg 0xe3c0 8 8 0 1;
                bvalid_det_st := mk_reg 0xe3e0 8 8 0 1;
                bvalid_det_clr := mk_reg 0xe3d0 8 8 0 1;
                ls_det_en := reg_unset;
                ls_det_st := reg_unset;
                ls_det_clr := reg_unset;
                utmi_avalid := mk_reg 0xe2ac 10 10 0 1;
                utmi_bvalid := mk_reg 0xe2ac 16 16 0 1;
                utmi_ls := reg_unset;
                utmi_hstdet := reg_unset |}
         | USB2PHY_PORT_HOST =>
             {| phy_sus := mk_reg 0xe468 1 0 0x2 0x1;
                bvalid_det_en := reg_unset;
                bvalid_det_st := reg_unset;
                bvalid_det_clr := reg_unset;
                ls_det_en := mk_reg 0xe3c0 11 11 0 1;
                ls_det_st := mk_reg 0xe3e0 11 11 0 1;
                ls_det_clr := mk_reg 0xe3d0 11 11 0 1;
                utmi_avalid := reg_unset;
                utmi_bvalid := reg_unset;
                utmi_ls := mk_reg 0xe2ac 26 25 0 1;
                utmi_hstdet := mk_reg 0xe2ac 27 27 0 1 |}
         end |};
    cfg_sentinel ].

Definition rk3568_phy_cfgs : list rockchip_usb2phy_cfg :=
  [ {| reg := 0xfe8a0000;
       clkout_ctl := mk_reg 0x0008 4 4 1 0;
       port_cfgs := fun id =>
         match id with
         | USB2PHY_PORT_OTG =>
             {| phy_sus := mk_reg 0x0000 8 0 0x052 0x1d1;
                bvalid_det_en := mk_reg 0x0080 2 2 0 1;
                bvalid_det_st := mk_reg 0x0084 2 2 0 1;
                bvalid_det_clr := mk_reg 0x0088 2 2 0 1;
                ls_det_en := mk_reg 0x0080 0 0 0 1;
                ls_det_st := mk_reg 0x0084 0 0 0 1;
                ls_det_clr := mk_reg 0x0088 0 0 0 1;
                utmi_avalid := mk_reg 0x00c0 10 10 0 1;
                utmi_bvalid := mk_reg 0x00c0 9 9 0 1;
                utmi_ls := mk_reg 0x00c0 5 4 0 1;
                utmi_hstdet := reg_unset |}
         | USB2PHY_PORT_HOST =>
             {| phy_sus := mk_reg 0x0004 8 0 0x1d2 0x1d1;
                bvalid_det_en := reg_unset;
                bvalid_det_st := reg_unset;
                bvalid_det_clr := reg_unset;
                ls_det_en := mk_reg 0x0080 1 1 0 1;
                ls_det_st := mk_reg 0x0084 1 1 0 1;
                ls_det_clr := mk_reg 0x0088 1 1 0 1;
                utmi_avalid := reg_unset;
                utmi_bvalid := reg_unset;
                utmi_ls := mk_reg 0x00c0 17 16 0 1;
                utmi_hstdet := mk_reg 0x00c0 19 19 0 1 |}
         end |};
    {| reg := 0xfe8b0000;
       clkout_ctl := mk_reg 0x0008 4 4 1 0;
       port_cfgs := fun id =>
         match id with
         | USB2PHY_PORT_OTG =>
             {| phy_sus := mk_reg 0x0000 8 0 0x1d2 0x1d1;
                bvalid_det_en := reg_unset;
                bvalid_det_st := reg_unset;
                bvalid_det_clr := reg_unset;
                ls_det_en := mk_reg 0x0080 0 0 0 1;
                ls_det_st := mk_reg 0x0084 0 0 0 1;
                ls_det_clr := mk_reg 0x0088 0 0 0 1;
                utmi_avalid := reg_unset;
                utmi_bvalid := reg_unset;
                utmi_ls := mk_reg 0x00c0 5 4 0 1;
                utmi_hstdet := mk_reg 0x00c0 7 7 0 1 |}
         | USB2PHY_PORT_HOST =>
             {| phy_sus := mk_reg 0x0004 8 0 0x1d2 0x1d1;
                bvalid_det_en := reg_unset;
                bvalid_det_st := reg_unset;
                bvalid_det_clr := reg_unset;
                ls_det_en := mk_reg 0x0080 1 1 0 1;
                ls_det_st := mk_reg 0x0084 1 1 0 1;
                ls_det_clr := mk_reg 0x0088 1 1 0 1;
                utmi_avalid := reg_unset;
                utmi_bvalid := reg_unset;
                utmi_ls := mk_reg 0x00c0 17 16 0 1;
                utmi_hstdet := mk_reg 0x00c0 19 19 0 1 |}
         end |};
    cfg_sentinel ].

(** The rk3588 entries describe one port each; the other port of the array
    is zero-initialized, and so is [clkout_ctl]. *)
Definition rk3588_port (sus : usb2phy_reg) : rockchip_usb2phy_port_cfg :=
  {| phy_sus := sus;
     bvalid_det_en := reg_unset;
     bvalid_det_st := reg_unset;
     bvalid_det_clr := reg_unset;
     ls_det_en := mk_reg 0x0080 0 0 0 1;
     ls_det_st := mk_reg 0x0084 0 0 0 1;
     ls_det_clr := mk_reg 0x0088 0 0 0 1;
     utmi_avalid := reg_unset;
     utmi_bvalid := reg_unset;
     utmi_ls := mk_reg 0x00c0 10 9 0 1;
     utmi_hstdet := reg_unset |}.

Definition rk3588_phy_cfgs : list rockchip_usb2phy_cfg :=
  [ {| reg := 0x0000;
       clkout_ctl := reg_unset;
       port_cfgs := fun id =>
         match id with
         | USB2PHY_PORT_OTG => rk3588_port (mk_reg 0x000c 11 11 0 1)
         | USB2PHY_PORT_HOST => port_cfg_unset
         end |};
    {| reg := 0x4000;
       clkout_ctl := reg_unset;
       port_cfgs := fun id =>
         match id with
         | USB2PHY_PORT_OTG => rk3588_port (mk_reg 0x000c 11 11 0 0)
         | USB2PHY_PORT_HOST => port_cfg_unset
         end |};
    {| reg := 0x8000;
       clkout_ctl := reg_unset;
       port_cfgs := fun id =>
         match id with
         | USB2PHY_PORT_OTG => port_cfg_unset
         | USB2PHY_PORT_HOST => rk3588_port (mk_reg 0x0008 2 2 0 1)
         end |};
    {| reg := 0xc000;
       clkout_ctl := reg_unset;
       port_cfgs := fun id =>
         match id with
         | USB2PHY_PORT_OTG => port_cfg_unset
         | USB2PHY_PORT_HOST => rk3588_port (mk_reg 0x0008 2 2 0 1)
         end |};
    cfg_sentinel ].

(** [rockchip_usb2phy_ids]: the driver data attached to each compatible
    string. *)
Definition rockchip_usb2phy_ids : list (string * list rockchip_usb2phy_cfg) :=
  [ ("rockchip,rk3399-usb2phy"%string, rk3399_usb2phy_cfgs);
    ("rockchip,rk3568-usb2phy"%string, rk3568_phy_cfgs);
    ("rockchip,rk3588-usb2phy"%string, rk3588_phy_cfgs) ].

End Tables.

(** ** Hardware state and the monad of the driver *)

(** Messages of [dev_err]. *)
Inductive log_msg : Set :=
  | MsgEnablePhyclkFailed (ret : Z)   (* failed to enable phyclk (ret=%d) *)
  | MsgImproperDevice (name : string) (* improper %s device *)
  | MsgReadRegFailed (ret : Z)        (* failed to read reg property (ret = %d) *)
  | MsgMustHaveReg1                   (* %s must have reg[1] *)
  | MsgNoPhyCfg                       (* failed find proper phy-cfg *)
  | MsgGetPhyclkFailed (ret : Z).     (* failed to get the phyclk (ret=%d) *)

(** What an operation does, in program order: calls of the two register
    helpers with the field they are given, the loads and stores they issue,
    busy-wait delays, calls into the clock framework and logged errors. *)
Inductive event : Set :=
  | EvPropertyEnable (r : usb2phy_reg) (en : bool)
  | EvPropertyEnabled (r : usb2phy_reg)
  | EvWritel (val addr : Z)
  | EvReadl (addr : Z)
  | EvUdelay (usec : Z)
  | EvClkEnable
  | EvClkDisable
  | EvDevErr (msg : log_msg).

Record hw : Type := mk_hw {
  grf : gmap Z Z;       (* contents of the registers, by address *)
  trace : list event
}.

(** A computation runs on the hardware state; [None] is a fault (a null or
    out-of-bounds access). *)
Definition M (A : Type) : Type := hw -> option (A * hw).

Definition ret {A} (a : A) : M A := fun w => Some (a, w).

Definition bind {A B} (m : M A) (k : A -> M B) : M B :=
  fun w => match m w with
           | Some (a, w') => k a w'
           | None => None
           end.

Definition fault {A} : M A := fun _ => None.

Notation "'let*' x ':=' m 'in' k" := (bind m (fun x => k))
  (at level 10, x name, m at level 100, k at level 200).

Definition emit (e : event) : M unit :=
  fun w => Some (tt, {| grf := grf w; trace := trace w ++ [e] |}).

(** Modelled from the spec: the registers behind [reg_base] follow the
    write-enable-mask convention; [writel] and the register block itself are
    external to the driver file.  Bit [i + 16] of a stored word selects
    whether bit [i] of the register takes bit [i] of the word; every other
    bit of the register keeps its content. *)
Definition masked_store (orig val : Z) : Z :=
  let wmask := Z.shiftr val BIT_WRITEABLE_SHIFT in
  Z.lor (Z.ldiff orig wmask) (Z.land val wmask).

(** Content of a register; one that was never set reads as zero. *)
Definition reg_content (g : gmap Z Z) (addr : Z) : Z := default 0 (g !! addr).

(** [writel(val, addr)]: one 32-bit store; the macro yields the value
    stored. *)
Definition writel (val addr : Z) : M Z :=
  fun w => Some (val,
    {| grf := <[addr := masked_store (reg_content (grf w) addr) val]> (grf w);
       trace := trace w ++ [EvWritel val addr] |}).

(** [readl(addr)]: one 32-bit load. *)
Definition readl (addr : Z) : M Z :=
  fun w => Some (u32 (reg_content (grf w) addr),
    {| grf := grf w; trace := trace w ++ [EvReadl addr] |}).

Definition udelay (usec : Z) : M unit := emit (EvUdelay usec).

(** [#define usleep_range(a, b) udelay((b))] *)
Definition usleep_range (a b : Z) : M unit := udelay b.

Definition dev_err (msg : log_msg) : M unit := emit (EvDevErr msg).

(** The abstract clock [phyclk]: the clock framework is external, a clock
    is given by what enabling and disabling it return. *)
Record clk : Set := mk_clk {
  clk_enable_ret : Z;
  clk_disable_ret : Z
}.

Definition clk_enable (c : clk) : M Z :=
  let* _ := emit EvClkEnable in ret (clk_enable_ret c).

Definition clk_disable (c : clk) : M Z :=
  let* _ := emit EvClkDisable in ret (clk_disable_ret c).

(** Conversion of an [unsigned int] to [int]. *)
Definition s32 (x : Z) : Z := if x <? 2 ^ 31 then x else x - 2 ^ 32.

(** ** The register helpers *)

(** The word that [property_enable] stores. *)
Definition property_enable_val (r : usb2phy_reg) (en : bool) : Z :=
  let tmp := if en then enable r else disable r in
  let mask := u32 (GENMASK (bitend r) (bitstart r)) in
  Z.lor (u32 (Z.shiftl tmp (bitstart r)))
        (u32 (Z.shiftl mask BIT_WRITEABLE_SHIFT)).

Definition property_enable (reg_base : Z) (r : usb2phy_reg) (en : bool) : M Z :=
  let* _ := emit (EvPropertyEnable r en) in
  let val := property_enable_val r en in
  let* v := writel val (reg_base + offset r) in
  ret (s32 v).

Definition property_enabled (reg_base : Z) (r : usb2phy_reg) : M bool :=
  let* _ := emit (EvPropertyEnabled r) in
  let mask := u32 (GENMASK (bitend r) (bitstart r)) in
  let* orig := readl (reg_base + offset r) in
  let tmp := Z.shiftr (Z.land orig mask) (bitstart r) in
  ret (negb (tmp =? disable r)).

(** The value a field holds in the register file. *)
Definition field_value (g : gmap Z Z) (reg_base : Z) (r : usb2phy_reg) : Z :=
  Z.shiftr (Z.land (u32 (reg_content g (reg_base + offset r)))
                   (u32 (GENMASK (bitend r) (bitstart r))))
           (bitstart r).

(** ** The PHY and clock operations *)

Record rockchip_usb2phy : Type := mk_priv {
  reg_base : Z;
  phyclk : clk;
  phy_cfg : option rockchip_usb2phy_cfg   (* [None] is the null pointer *)
}.

(** A [struct phy] of a port: the name of its device and its port id. *)
Record phy : Set := mk_phy {
  dev_name : string;
  id : rockchip_usb2phy_port_id
}.

(** [us2phy_get_port] only forms the address [&phy_cfg->port_cfgs[id]]; the
    config behind it is first read when a field of the port is handed to a
    register helper, and that is where a null [phy_cfg] faults. *)
Definition us2phy_get_port (priv : rockchip_usb2phy) (p : phy)
  : M rockchip_usb2phy_port_cfg :=
  match phy_cfg priv with
  | Some c => ret (port_cfgs c (id p))
  | None => fault
  end.

Definition rockchip_usb2phy_power_on (priv : rockchip_usb2phy) (p : phy) : M Z :=
  let* port_cfg := us2phy_get_port priv p in
  let* _ := property_enable (reg_base priv) (phy_sus port_cfg) false in
  (* waiting for the utmi_clk to become stable *)
  let* _ := usleep_range 1500 2000 in
  ret 0.

Definition rockchip_usb2phy_power_off (priv : rockchip_usb2phy) (p : phy) : M Z :=
  let* port_cfg := us2phy_get_port priv p in
  let* _ := property_enable (reg_base priv) (phy_sus port_cfg) true in
  ret 0.

Definition rockchip_usb2phy_init (priv : rockchip_usb2phy) (p : phy) : M Z :=
  let* r := clk_enable (phyclk priv) in
  if negb (r =? 0) && negb (r =? - ENOSYS) then
    let* _ := dev_err (MsgEnablePhyclkFailed r) in
    ret r
  else
    let* port_cfg := us2phy_get_port priv p in
    let* _ :=
      match id p with
      | USB2PHY_PORT_OTG =>
          let* _ := property_enable (reg_base priv) (bvalid_det_clr port_cfg) true in
          property_enable (reg_base priv) (bvalid_det_en port_cfg) true
      | USB2PHY_PORT_HOST =>
          let* _ := property_enable (reg_base priv) (bvalid_det_clr port_cfg) true in
          property_enable (reg_base priv) (bvalid_det_en port_cfg) true
      end in
    ret 0.

Definition rockchip_usb2phy_exit (priv : rockchip_usb2phy) (p : phy) : M Z :=
  let* _ := clk_disable (phyclk priv) in
  ret 0.

(** Modelled from the spec: the case-insensitive match of the node name;
    [strcasecmp] and [tolower] come from the string library, which is not
    part of the driver file.  Characters are [unsigned char] codes; the
    comparison stops at the first terminator or at the first pair of
    characters that differ after lowering, and yields their difference. *)
Definition char_code (c : ascii) : Z := Z.of_N (N_of_ascii c).

Definition tolower (c : Z) : Z :=
  if (65 <=? c) && (c <=? 90) then c + 32 else c.

Fixpoint strcasecmp (s1 s2 : string) : Z :=
  match s1, s2 with
  | EmptyString, EmptyString => 0
  | EmptyString, String b _ => 0 - char_code b
  | String a _, EmptyString => char_code a - 0
  | String a r1, String b r2 =>
      let c1 := char_code a in
      let c2 := char_code b in
      if c1 =? 0 then c1 - c2
      else if c2 =? 0 then c1 - c2
      else if c1 =? c2 then strcasecmp r1 r2
      else
        let c1 := tolower c1 in
        let c2 := tolower c2 in
        if negb (c1 =? c2) then c1 - c2 else strcasecmp r1 r2
  end.

(** [of_xlate] yields its return value and the updated [struct phy]. *)
Definition rockchip_usb2phy_of_xlate (p : phy) : M (Z * phy) :=
  let name := dev_name p in
  if strcasecmp name "host-port" =? 0 then
    ret (0, {| dev_name := dev_name p; id := USB2PHY_PORT_HOST |})
  else if strcasecmp name "otg-port" =? 0 then
    ret (0, {| dev_name := dev_name p; id := USB2PHY_PORT_OTG |})
  else
    let* _ := dev_err (MsgImproperDevice name) in
    ret (0, p).

Definition rockchip_usb2phy_clk_round_rate (rate : Z) : Z := 480000000.

Definition rockchip_usb2phy_clk_enable (priv : rockchip_usb2phy) : M Z :=
  match phy_cfg priv with
  | None => fault
  | Some phy_cfg =>
      (* turn on 480m clk output if it is off *)
      let* on := property_enabled (reg_base priv) (clkout_ctl phy_cfg) in
      let* _ :=
        if negb on then
          let* _ := property_enable (reg_base priv) (clkout_ctl phy_cfg) true in
          (* waiting for the clk become stable *)
          usleep_range 1200 1300
        else ret tt in
      ret 0
  end.

Definition rockchip_usb2phy_clk_disable (priv : rockchip_usb2phy) : M Z :=
  match phy_cfg priv with
  | None => fault
  | Some phy_cfg =>
      (* turn off 480m clk output *)
      let* _ := property_enable (reg_base priv) (clkout_ctl phy_cfg) false in
      ret 0
  end.

(** ** Probe *)

(** What the probe routine reads from its device: the pointer that
    [syscon_get_first_range] returns, the cells of the [reg] property of the
    node ([None] when the node has none), the number of address cells, the
    driver data of the matched compatible string, and the outcome of
    [clk_get_by_name] for ["phyclk"]. *)
Record udevice : Type := mk_udevice {
  syscon_grf : Z;
  of_reg : option (list Z);
  addr_cells : Z;
  driver_data : option (list rockchip_usb2phy_cfg);
  phyclk_ret : Z;
  phyclk_found : clk
}.

(** [IS_ERR] and [PTR_ERR] of [linux/err.h]: the last [MAX_ERRNO] addresses
    carry negative error numbers. *)
Definition MAX_ERRNO : Z := 4095.
Definition IS_ERR (ptr : Z) : bool := 2 ^ BITS_PER_LONG - MAX_ERRNO <=? ptr.
Definition PTR_ERR (ptr : Z) : Z := ptr - 2 ^ BITS_PER_LONG.

(** Modelled from the spec: the hardware-description read of one cell of
    [reg], which returns the cell or an error signal when the property is
    absent or too short; the device-tree accessors are not part of the
    driver file. *)
Definition ofnode_read_u32_index (dev : udevice) (index : nat) : Z + Z :=
  match of_reg dev with
  | None => inl (- EINVAL)
  | Some cells =>
      match cells !! index with
      | Some v => inr (u32 v)
      | None => inl (- EOVERFLOW)
      end
  end.

Definition dev_read_addr_cells (dev : udevice) : Z := addr_cells dev.

(** The [do ... while] loop that finds a config matching the device tree.
    [Some (Some (index, c))] is the [break] with [&phy_cfgs[index]],
    [Some None] the exit on the terminating entry, and [None] a read past
    the end of the array (or no iterations left). *)
Fixpoint find_phy_cfg (fuel : nat) (phy_cfgs : list rockchip_usb2phy_cfg)
    (r : Z) (index : nat) : option (option (nat * rockchip_usb2phy_cfg)) :=
  match fuel with
  | O => None
  | S fuel' =>
      match phy_cfgs !! index with
      | None => None
      | Some c =>
          if reg c =? r then Some (Some (index, c))
          else
            let index := S index in
            match phy_cfgs !! index with
            | None => None
            | Some c' =>
                if negb (reg c' =? 0) then find_phy_cfg fuel' phy_cfgs r index
                else Some None
            end
      end
  end.

Definition rockchip_usb2phy_probe (dev : udevice) (priv : rockchip_usb2phy)
  : M (Z * rockchip_usb2phy) :=
  let priv := {| reg_base := syscon_grf dev;
                 phyclk := phyclk priv;
                 phy_cfg := phy_cfg priv |} in
  if IS_ERR (reg_base priv) then ret (PTR_ERR (reg_base priv), priv)
  else
    match ofnode_read_u32_index dev 0 with
    | inl e =>
        let* _ := dev_err (MsgReadRegFailed e) in
        ret (e, priv)
    | inr r =>
        (* support address_cells=2 *)
        let second :=
          if (dev_read_addr_cells dev =? 2) && (r =? 0)
          then ofnode_read_u32_index dev 1
          else inr r in
        match second with
        | inl _ =>
            let* _ := dev_err MsgMustHaveReg1 in
            ret (- EINVAL, priv)
        | inr r =>
            match driver_data dev with
            | None => ret (- EINVAL, priv)
            | Some phy_cfgs =>
                (* find out a proper config which can be matched with dt. *)
                match find_phy_cfg (length phy_cfgs) phy_cfgs r 0 with
                | None => fault
                | Some found =>
                    let priv :=
                      match found with
                      | Some (_, c) => {| reg_base := reg_base priv;
                                          phyclk := phyclk priv;
                                          phy_cfg := Some c |}
                      | None => priv
                      end in
                    match phy_cfg priv with
                    | None =>
                        let* _ := dev_err MsgNoPhyCfg in
                        ret (- EINVAL, priv)
                    | Some _ =>
                        if negb (phyclk_ret dev =? 0) then
                          let* _ := dev_err (MsgGetPhyclkFailed (phyclk_ret dev)) in
                          ret (phyclk_ret dev, priv)
                        else
                          ret (0, {| reg_base := reg_base priv;
                                     phyclk := phyclk_found dev;
                                     phy_cfg := phy_cfg priv |})
                    end
                end
            end
        end
    end.

(** The private data as the driver model allocates it: zero-filled. *)
Definition priv_auto : rockchip_usb2phy :=
  {| reg_base := 0; phyclk := mk_clk 0 0; phy_cfg := None |}.

(** The state of a hardware that nothing has touched yet. *)
Definition hw_reset (g : gmap Z Z) : hw := {| grf := g; trace := [] |}.

(** ** Vocabulary of the properties *)

(** Value and final state of a run. *)
Definition result {A} (m : M A) (w : hw) : option A := fst <$> m w.
Definition state_after {A} (m : M A) (w : hw) : option hw := snd <$> m w.

(** The events a run appends to the trace. *)
Definition events_of {A} (m : M A) (w : hw) : list event :=
  match m w with
  | Some (_, w') => drop (length (trace w)) (trace w')
  | None => []
  end.

(** Bit [i] belongs to the range of the field. *)
Definition in_field (r : usb2phy_reg) (i : Z) : bool :=
  (bitstart r <=? i) && (i <=? bitend r).

(** The encoding written for [en]. *)
Definition encoding (r : usb2phy_reg) (en : bool) : Z :=
  if en then enable r else disable r.

(** Decidable form of the field invariant together with writeability. *)
Definition reg_okb (r : usb2phy_reg) : bool :=
  (0 <=? offset r) && (offset r <? 2 ^ 32)
  && (0 <=? bitstart r) && (bitstart r <=? bitend r)
  && (bitend r <? BIT_WRITEABLE_SHIFT)
  && (0 <=? disable r) && (disable r <? 2 ^ (bitend r - bitstart r + 1))
  && (0 <=? enable r) && (enable r <? 2 ^ (bitend r - bitstart r + 1)).

(** The fields handed to the register helpers, in program order. *)
Fixpoint accessed_fields (t : list event) : list usb2phy_reg :=
  match t with
  | [] => []
  | EvPropertyEnable r _ :: t' => r :: accessed_fields t'
  | EvPropertyEnabled r :: t' => r :: accessed_fields t'
  | _ :: t' => accessed_fields t'
  end.

(** The stores issued, in program order. *)
Fixpoint stores (t : list event) : list (Z * Z) :=
  match t with
  | [] => []
  | EvWritel val addr :: t' => (val, addr) :: stores t'
  | _ :: t' => stores t'
  end.


(** A C string has no terminator inside. *)
Fixpoint c_string (s : string) : bool :=
  match s with
  | EmptyString => true
  | String a s' => negb (char_code a =? 0) && c_string s'
  end.

(** Two characters are the same up to the case of a letter. *)
Definition is_upper (c : Z) : bool := (65 <=? c) && (c <=? 90).
Definition is_lower (c : Z) : bool := (97 <=? c) && (c <=? 122).

Definition same_letter (a b : Z) : bool :=
  (a =? b) || (is_upper a && (b =? a + 32)) || (is_lower a && (b =? a - 32)).

(** [s] is a case variant of [t]. *)
Fixpoint case_variant (s t : string) : bool :=
  match s, t with
  | EmptyString, EmptyString => true
  | String a s', String b t' =>
      same_letter (char_code a) (char_code b) && case_variant s' t'
  | _, _ => false
  end.

(** The table an array denotes: its first entry and the entries after it up
    to the first one whose [reg] is zero, which terminates the table. *)
Fixpoint until_sentinel (l : list rockchip_usb2phy_cfg) : list rockchip_usb2phy_cfg :=
  match l with
  | [] => []
  | c :: l' => if reg c =? 0 then [] else c :: until_sentinel l'
  end.

Definition table_entries (phy_cfgs : list rockchip_usb2phy_cfg)
  : list rockchip_usb2phy_cfg :=
  match phy_cfgs with
  | [] => []
  | c :: l => c :: until_sentinel l
  end.

(** The array has a terminating entry after its first entry. *)
Definition terminated (phy_cfgs : list rockchip_usb2phy_cfg) : bool :=
  match phy_cfgs with
  | [] => false
  | _ :: l => existsb (fun c => reg c =? 0) l
  end.

(** Resolution as the specification words it: the first entry, in table
    order, whose base id equals the register base, with its position. *)
Definition resolve_first_match (phy_cfgs : list rockchip_usb2phy_cfg) (r : Z)
  : option (nat * rockchip_usb2phy_cfg) :=
  list_find (fun c => reg c = r) (table_entries phy_cfgs).

(** The lookup of the probe routine, started at index 0. *)
Definition lookup_phy_cfg (phy_cfgs : list rockchip_usb2phy_cfg) (r : Z)
  : option (option (nat * rockchip_usb2phy_cfg)) :=
  find_phy_cfg (length phy_cfgs) phy_cfgs r 0.

(** Entry [n] of a table. *)
Definition nth_cfg (phy_cfgs : list rockchip_usb2phy_cfg) (n : nat)
  : rockchip_usb2phy_cfg :=
  default cfg_sentinel (phy_cfgs !! n).

(** The private data after a successful probe. *)
Definition probed (base : Z) (c : clk) (cfg : rockchip_usb2phy_cfg)
  : rockchip_usb2phy :=
  {| reg_base := base; phyclk := c; phy_cfg := Some cfg |}.

(** Positions found in a suffix of an array, counted from its start. *)
Definition shift_index (n : nat) (x : option (nat * rockchip_usb2phy_cfg))
  : option (nat * rockchip_usb2phy_cfg) :=
  match x with
  | Some (i, c) => Some ((i + n)%nat, c)
  | None => None
  end.

(** The hardware state with one more event in its trace. *)
Definition log_event (w : hw) (e : event) : hw :=
  {| grf := grf w; trace := trace w ++ [e] |}.


(** ** Bind *)

Definition ENXIO : Z := 6.

(** A node of the device tree, as far as bind looks at it. *)
Record ofnode : Set := mk_ofnode {
  ofnode_valid : bool;
  ofnode_get_name : string
}.

(** What the bind routine reads from its device: the subnodes the iteration
    yields, the [clock-output-names] property of the node ([None] when the
    node has none), and what [device_bind_driver_to_node] returns for a
    driver and a device name (the driver model is external). *)
Record bind_device : Type := mk_bind_device {
  subnodes : list ofnode;
  clock_output_names : option (list string);
  bind_outcome : string -> string -> Z
}.

Inductive bind_event : Set :=
  | EvBind (drv name : string) (r : Z)   (* device_bind_driver_to_node *)
  | EvUnbindChildren                     (* device_chld_unbind(dev, NULL) *)
  | EvSubnodeNotFound                    (* subnode %s not found *)
  | EvCannotBind (name drv : string).    (* '%s' cannot bind '%s' *)

(** The children bound to the device, as (driver, name), oldest first. *)
Record dm : Type := mk_dm {
  children : list (string * string);
  bind_trace : list bind_event
}.

Definition dm_log (s : dm) (e : bind_event) : dm :=
  {| children := children s; bind_trace := bind_trace s ++ [e] |}.

(** Binding a child adds it to the children of the device when it
    succeeds. *)
Definition device_bind_driver_to_node (dev : bind_device) (drv name : string)
    (s : dm) : Z * dm :=
  let r := bind_outcome dev drv name in
  (r, {| children := if r =? 0 then children s ++ [(drv, name)] else children s;
         bind_trace := bind_trace s ++ [EvBind drv name r] |}).

(** [device_chld_unbind(dev, NULL)] unbinds every child of the device. *)
Definition device_chld_unbind (s : dm) : dm :=
  {| children := []; bind_trace := bind_trace s ++ [EvUnbindChildren] |}.

(** Modelled from the spec: the optional [clock-output-names[0]] property
    names the clock, the name given is kept when the property has no such
    string; the device-tree accessors are not part of the driver file. *)
Definition dev_read_string_index (dev : bind_device) (index : nat)
    (name : string) : string :=
  match clock_output_names dev with
  | Some names => default name (names !! index)
  | None => name
  end.

(** The [dev_for_each_subnode] loop.  Its condition is [ofnode_valid(node)]:
    the iteration ends at the end of the subnodes or at the first node that
    is not valid, with [ret] still 0.  The loop is left with [ret] nonzero
    exactly by a [goto bind_fail]. *)
Fixpoint bind_subnodes (dev : bind_device) (nodes : list ofnode) (s : dm)
  : Z * dm :=
  match nodes with
  | [] => (0, s)
  | node :: rest =>
      if ofnode_valid node then
        if negb (ofnode_valid node) then
          (- ENXIO, dm_log s EvSubnodeNotFound)
        else
          let name := ofnode_get_name node in
          let '(r, s) :=
            device_bind_driver_to_node dev "rockchip_usb2phy_port" name s in
          if negb (r =? 0) then
            (r, dm_log s (EvCannotBind name "rockchip_usb2phy_port"))
          else bind_subnodes dev rest s
      else (0, s)
  end.

Definition rockchip_usb2phy_bind (dev : bind_device) (s : dm) : Z * dm :=
  let '(r, s) := bind_subnodes dev (subnodes dev) s in
  if negb (r =? 0) then
    (* bind_fail *)
    (r, device_chld_unbind s)
  else
    let name := dev_read_string_index dev 0 "clk_usbphy_480m" in
    let '(r, s) :=
      device_bind_driver_to_node dev "rockchip_usb2phy_clock" name s in
    if negb (r =? 0) then
      (* bind_fail *)
      (r, device_chld_unbind
            (dm_log s (EvCannotBind name "rockchip_usb2phy_clock")))
    else (0, s).

(** ** Further vocabulary *)

(** The register-base value probe matches against the table: the first
    cell of [reg], or the second one under 2-cell addressing with a zero
    first cell. *)
Definition probe_reg (dev : udevice) : option Z :=
  match ofnode_read_u32_index dev 0 with
  | inl _ => None
  | inr r =>
      if (dev_read_addr_cells dev =? 2) && (r =? 0) then
        match ofnode_read_u32_index dev 1 with
        | inl _ => None
        | inr r2 => Some r2
        end
      else Some r
  end.

(** The event is a logged error. *)
Definition is_dev_err (e : event) : bool :=
  match e with
  | EvDevErr _ => true
  | _ => false
  end.

(** The port children bind creates for a list of subnodes. *)
Definition port_children (nodes : list ofnode) : list (string * string) :=
  (fun node => ("rockchip_usb2phy_port"%string, ofnode_get_name node)) <$> nodes.

(** The clock child bind creates. *)
Definition clock_child (dev : bind_device) : string * string :=
  ("rockchip_usb2phy_clock"%string,
   dev_read_string_index dev 0 "clk_usbphy_480m").

(** The subnodes the loop visits: those before the first node that is not
    valid. *)
Fixpoint subnodes_visited (nodes : list ofnode) : list ofnode :=
  match nodes with
  | [] => []
  | node :: rest =>
      if ofnode_valid node then node :: subnodes_visited rest else []
  end.

(** The port child of every node of the list binds. *)
Definition ports_bindable (dev : bind_device) (nodes : list ofnode) : bool :=
  forallb (fun node =>
             bind_outcome dev "rockchip_usb2phy_port" (ofnode_get_name node) =? 0)
          nodes.

(** Resolution with a retry, as the specification words it for a split
    address: look the first cell up; when no entry matches, the node has 2
    address cells and the first cell is 0, look the second cell up; fail
    when no entry matches after both attempts. *)
Definition resolve_with_retry (phy_cfgs : list rockchip_usb2phy_cfg)
    (cells first : Z) (second : option Z)
  : option (nat * rockchip_usb2phy_cfg) :=
  match resolve_first_match phy_cfgs first with
  | Some found => Some found
  | None =>
      if (cells =? 2) && (first =? 0) then
        match second with
        | Some r => resolve_first_match phy_cfgs r
        | None => None
        end
      else None
  end.

(** The binds attempted, in program order. *)
Fixpoint bind_attempts (t : list bind_event) : list (string * string) :=
  match t with
  | [] => []
  | EvBind drv name _ :: t' => (drv, name) :: bind_attempts t'
  | _ :: t' => bind_attempts t'
  end.

(** The two fields have no bit of a register in common. *)
Definition fields_apart (r1 r2 : usb2phy_reg) : Prop :=
  offset r1 <> offset r2 \/ bitend r1 < bitstart r2 \/ bitend r2 < bitstart r1.

(** The fields the driver writes through a config. *)
Definition written_fields (cfg : rockchip_usb2phy_cfg) : list usb2phy_reg :=
  [ clkout_ctl cfg;
    phy_sus (port_cfgs cfg USB2PHY_PORT_OTG);
    bvalid_det_clr (port_cfgs cfg USB2PHY_PORT_OTG);
    bvalid_det_en (port_cfgs cfg USB2PHY_PORT_OTG);
    phy_sus (port_cfgs cfg USB2PHY_PORT_HOST);
    bvalid_det_clr (port_cfgs cfg USB2PHY_PORT_HOST);
    bvalid_det_en (port_cfgs cfg USB2PHY_PORT_HOST) ].

(** The register file after a store of [val] at [addr]. *)
Definition store_word (g : gmap Z Z) (addr val : Z) : gmap Z Z :=
  <[addr := masked_store (reg_content g addr) val]> g.

(** Bit [i] of the register at [addr] belongs to field [r] behind [base]. *)
Definition in_footprint (base : Z) (r : usb2phy_reg) (addr i : Z) : bool :=
  (addr =? base + offset r) && in_field r i.

(** Two register files agree on bit [i] of the register at [addr]. *)
Definition same_bit (g g' : gmap Z Z) (addr i : Z) : Prop :=
  Z.testbit (reg_content g' addr) i = Z.testbit (reg_content g addr) i.

(** The events of the port binds that succeed for a list of subnodes. *)
Definition port_bind_events (nodes : list ofnode) : list bind_event :=
  (fun node => EvBind "rockchip_usb2phy_port" (ofnode_get_name node) 0) <$> nodes.

(** * Properties *)

(** ** Bit-level facts about the stored word *)

Section Bits.

Lemma testbit_small (x k i : Z) :
  0 <= x < 2 ^ k -> 0 <= k <= i -> Z.testbit x i = false.
Proof.
  intros Hx Hk. rewrite <- (Z.mod_small x (2 ^ k)) by lia.
  apply Z.mod_pow2_bits_high. lia.
Qed.

(** Within a register, [GENMASK h l] has exactly the bits [l..h]. *)
Lemma GENMASK_testbit (h l i : Z) :
  0 <= l -> 0 <= h < BITS_PER_LONG -> 0 <= i ->
  Z.testbit (u32 (GENMASK h l)) i = (l <=? i) && (i <=? h) && (i <? 32).
Proof.
  unfold u32, GENMASK, ulong, BITS_PER_LONG. intros Hl Hh Hi.
  rewrite Z.testbit_mod_pow2 by lia.
  rewrite Z.land_spec, Z.testbit_mod_pow2 by lia.
  rewrite Z.shiftl_spec, Z.shiftr_spec by lia.
  rewrite !Z.testbit_ones by lia.
  destruct (Z.leb_spec l i), (Z.leb_spec i h), (Z.ltb_spec i 32); simpl;
    repeat match goal with
    | |- context [?a <=? ?b] => destruct (Z.leb_spec a b); try lia; simpl
    | |- context [?a <? ?b] => destruct (Z.ltb_spec a b); try lia; simpl
    end; reflexivity.
Qed.

(** A store takes effect on the bits whose write-enable bit is set. *)
Lemma masked_store_testbit (orig val i : Z) :
  0 <= i ->
  Z.testbit (masked_store orig val) i =
  if Z.testbit val (i + BIT_WRITEABLE_SHIFT) then Z.testbit val i
  else Z.testbit orig i.
Proof.
  intros Hi. unfold masked_store.
  rewrite Z.lor_spec, Z.ldiff_spec, Z.land_spec, Z.shiftr_spec by lia.
  destruct (Z.testbit val (i + BIT_WRITEABLE_SHIFT)), (Z.testbit val i),
    (Z.testbit orig i); reflexivity.
Qed.

Lemma encoding_fits r en :
  reg_wf r -> 0 <= encoding r en < 2 ^ (bitend r - bitstart r + 1).
Proof. intros (_ & _ & _ & Hd & He). destruct en; assumption. Qed.

Lemma property_enable_val_testbit r en i :
  reg_wf r -> 0 <= i ->
  Z.testbit (property_enable_val r en) i =
  (i <? 32) &&
  (Z.testbit (encoding r en) (i - bitstart r)
   || in_field r (i - BIT_WRITEABLE_SHIFT)).
Proof.
  intros Hwf Hi. pose proof (encoding_fits r en Hwf) as Hfit.
  destruct Hwf as (_ & Hs & He & _).
  unfold property_enable_val. fold (encoding r en).
  rewrite Z.lor_spec. unfold u32 at 1 2.
  rewrite !Z.testbit_mod_pow2 by lia.
  rewrite !Z.shiftl_spec by lia.
  unfold in_field, BIT_WRITEABLE_SHIFT.
  destruct (Z.ltb_spec i 32); simpl; [|reflexivity].
  f_equal.
  destruct (Z.leb_spec 16 i).
  - rewrite GENMASK_testbit by (unfold BITS_PER_LONG; lia).
    destruct (Z.ltb_spec (i - 16) 32); [|lia].
    rewrite andb_true_r. reflexivity.
  - rewrite Z.testbit_neg_r by lia.
    destruct (Z.leb_spec (bitstart r) (i - 16)); [lia | reflexivity].
Qed.

(** The register after the store of [property_enable]: the bits of the
    field hold the encoding, the others are as before. *)
Lemma masked_store_field r en orig i :
  reg_wf r -> reg_writeable r -> 0 <= i ->
  Z.testbit (masked_store orig (property_enable_val r en)) i =
  if in_field r i then Z.testbit (encoding r en) (i - bitstart r)
  else Z.testbit orig i.
Proof.
  intros Hwf Hw Hi. pose proof (encoding_fits r en Hwf) as Hfit.
  rewrite masked_store_testbit by lia.
  rewrite !property_enable_val_testbit
    by (try assumption; unfold BIT_WRITEABLE_SHIFT; lia).
  destruct Hwf as (_ & Hs & He & _).
  unfold reg_writeable, BIT_WRITEABLE_SHIFT in *.
  replace (i + 16 - 16) with i by lia.
  rewrite (testbit_small (encoding r en) (bitend r - bitstart r + 1)
             (i + 16 - bitstart r)) by lia.
  simpl. unfold in_field.
  destruct (Z.leb_spec (bitstart r) i), (Z.leb_spec i (bitend r)); simpl;
    rewrite ?andb_false_r; try reflexivity.
  destruct (Z.ltb_spec (i + 16) 32); [|lia].
  destruct (Z.ltb_spec i 32); [|lia]. simpl.
  destruct (Z.leb_spec (bitstart r) (i - 16)); [lia|].
  simpl. rewrite orb_false_r. reflexivity.
Qed.

(** Extracting the field from the register after the store gives the
    encoding back. *)
Lemma field_of_masked_store r en orig :
  reg_wf r -> reg_writeable r ->
  Z.shiftr (Z.land (u32 (masked_store orig (property_enable_val r en)))
                   (u32 (GENMASK (bitend r) (bitstart r))))
           (bitstart r) = encoding r en.
Proof.
  intros Hwf Hw. pose proof (encoding_fits r en Hwf) as Hfit.
  apply Z.bits_inj'. intros j Hj.
  pose proof Hwf as (_ & Hs & He & _).
  rewrite Z.shiftr_spec, Z.land_spec by lia.
  rewrite GENMASK_testbit by (unfold BITS_PER_LONG; lia).
  unfold u32. rewrite Z.testbit_mod_pow2 by lia.
  rewrite masked_store_field by (try assumption; lia). unfold in_field.
  replace (j + bitstart r - bitstart r) with j by lia.
  destruct (Z.leb_spec (bitstart r) (j + bitstart r)); [|lia].
  destruct (Z.leb_spec (j + bitstart r) (bitend r)); simpl.
  - destruct (Z.ltb_spec (j + bitstart r) 32); [|lia]. simpl.
    rewrite andb_true_r. reflexivity.
  - rewrite andb_false_r.
    symmetry. apply (testbit_small _ (bitend r - bitstart r + 1)); lia.
Qed.

Lemma reg_okb_sound r : reg_okb r = true -> reg_wf r /\ reg_writeable r.
Proof.
  unfold reg_okb, reg_wf, reg_writeable. intros H.
  repeat (apply andb_prop in H; destruct H as [H ?]).
  repeat match goal with
  | H : (_ <=? _) = true |- _ => apply Z.leb_le in H
  | H : (_ <? _) = true |- _ => apply Z.ltb_lt in H
  end.
  unfold BIT_WRITEABLE_SHIFT in *. lia.
Qed.

End Bits.

(** ** The register helpers on the hardware state *)

Section Helpers.

Lemma reg_content_insert_eq g a v : reg_content (<[a := v]> g) a = v.
Proof. unfold reg_content. rewrite lookup_insert_eq. reflexivity. Qed.

Lemma reg_content_insert_ne g a b v :
  a <> b -> reg_content (<[a := v]> g) b = reg_content g b.
Proof. intros H. unfold reg_content. rewrite lookup_insert_ne by done. reflexivity. Qed.

(** [property_enable] always runs: one logged call and one store. *)
Lemma property_enable_run base r en w :
  property_enable base r en w =
  Some (s32 (property_enable_val r en),
        {| grf := <[base + offset r :=
                      masked_store (reg_content (grf w) (base + offset r))
                                   (property_enable_val r en)]> (grf w);
           trace := (trace w ++ [EvPropertyEnable r en])
                      ++ [EvWritel (property_enable_val r en) (base + offset r)] |}).
Proof. reflexivity. Qed.

Lemma property_enabled_run base r w :
  property_enabled base r w =
  Some (negb (field_value (grf w) base r =? disable r),
        {| grf := grf w;
           trace := (trace w ++ [EvPropertyEnabled r])
                      ++ [EvReadl (base + offset r)] |}).
Proof. reflexivity. Qed.

(** The field after [property_enable] holds the encoding written. *)
Lemma field_value_after_enable base r en g :
  reg_wf r -> reg_writeable r ->
  field_value
    (<[base + offset r :=
         masked_store (reg_content g (base + offset r))
                      (property_enable_val r en)]> g) base r
  = encoding r en.
Proof.
  intros Hwf Hw. unfold field_value. rewrite reg_content_insert_eq.
  apply field_of_masked_store; assumption.
Qed.

End Helpers.

(** ** Write then read, and the frame of a write *)

Section BitField.

Import Tables.

(** C1 (as amended).  For every bit field that satisfies the invariant
    ([bitstart <= bitend], both encodings fit in the range), whose two
    encodings differ and whose range lies in the low 16 bits of the
    register, [property_enable] followed by [property_enabled] on the same
    register state returns the flag that was written. *)
Theorem property_enable_then_enabled base r en w :
  reg_wf r -> reg_writeable r -> enable r <> disable r ->
  result (let* _ := property_enable base r en in property_enabled base r) w
  = Some en.
Proof.
  intros Hwf Hw Hne. unfold result, bind.
  rewrite property_enable_run, property_enabled_run. simpl.
  rewrite field_value_after_enable by assumption.
  f_equal. destruct en; simpl.
  - apply negb_true_iff, Z.eqb_neq. assumption.
  - rewrite Z.eqb_refl. reflexivity.
Qed.

Lemma property_enable_then_enabled_witness :
  result (let* _ := property_enable 0 (mk_reg 0x0000 8 0 0x052 0x1d1) true in
          property_enabled 0 (mk_reg 0x0000 8 0 0x052 0x1d1))
         (hw_reset ∅) = Some true.
Proof.
  apply (property_enable_then_enabled 0 (mk_reg 0x0000 8 0 0x052 0x1d1) true
           (hw_reset ∅)).
  - unfold reg_wf; simpl; lia.
  - unfold reg_writeable, BIT_WRITEABLE_SHIFT; simpl; lia.
  - simpl; lia.
Defined.

(** C1 as stated fails.  The field [utmi_hstdet] of the rk3399 host port,
    bit 23 with encodings 0 and 1, satisfies the invariant and its encodings
    differ, but its write-enable bits would sit above bit 31 of the stored
    word: writing "enabled" leaves the register as it was and the read
    returns false. *)
Lemma property_enable_then_enabled_high_field :
  let r := utmi_hstdet (port_cfgs (nth_cfg rk3399_usb2phy_cfgs 0) USB2PHY_PORT_HOST) in
  reg_wf r /\ enable r <> disable r /\
  result (let* _ := property_enable 0 r true in property_enabled 0 r)
         (hw_reset ∅) = Some false.
Proof.
  simpl. split; [unfold reg_wf; simpl; lia|].
  split; [lia|]. vm_compute. reflexivity.
Qed.

(** C2 (as amended).  For every bit field that satisfies the invariant and
    lies in the low 16 bits of the register, for every flag and every prior
    register state, [property_enable] changes no bit of the target register
    outside the range of the field, and no other register. *)
Theorem property_enable_frame base r en w :
  reg_wf r -> reg_writeable r ->
  exists w', state_after (property_enable base r en) w = Some w' /\
    (forall i, 0 <= i -> in_field r i = false ->
       Z.testbit (reg_content (grf w') (base + offset r)) i =
       Z.testbit (reg_content (grf w) (base + offset r)) i) /\
    (forall addr, addr <> base + offset r ->
       reg_content (grf w') addr = reg_content (grf w) addr).
Proof.
  intros Hwf Hw. unfold state_after. rewrite property_enable_run. simpl.
  eexists. split; [reflexivity|]. simpl. split.
  - intros i Hi Hout. rewrite reg_content_insert_eq.
    rewrite masked_store_field by assumption. rewrite Hout. reflexivity.
  - intros addr Hne. apply reg_content_insert_ne. congruence.
Qed.

Lemma property_enable_frame_witness :
  exists w',
    state_after (property_enable 0 (mk_reg 0x0080 2 2 0 1) true)
                (hw_reset {[ 0x0080 := 0xffff ]}) = Some w' /\
    (forall i, 0 <= i -> in_field (mk_reg 0x0080 2 2 0 1) i = false ->
       Z.testbit (reg_content (grf w') (0 + 0x0080)) i =
       Z.testbit (reg_content (grf (hw_reset {[ 0x0080 := 0xffff ]})) (0 + 0x0080)) i) /\
    (forall addr, addr <> 0 + 0x0080 ->
       reg_content (grf w') addr =
       reg_content (grf (hw_reset {[ 0x0080 := 0xffff ]})) addr).
Proof.
  apply (property_enable_frame 0 (mk_reg 0x0080 2 2 0 1) true
           (hw_reset {[ 0x0080 := 0xffff ]})).
  - unfold reg_wf; simpl; lia.
  - unfold reg_writeable, BIT_WRITEABLE_SHIFT; simpl; lia.
Defined.

(** C2 as stated fails.  For the field [utmi_hstdet] of the rk3399 host
    port (bit 23) the stored word is [1 << 23], whose upper half enables
    bit 7 and whose lower half clears it: with bit 7 of the register set
    beforehand, the write changes bit 7, which is outside the field. *)
Lemma property_enable_frame_high_field :
  let r := utmi_hstdet (port_cfgs (nth_cfg rk3399_usb2phy_cfgs 0) USB2PHY_PORT_HOST) in
  let w := hw_reset {[ 0xe2ac := 0x80 ]} in
  reg_wf r /\ in_field r 7 = false /\
  exists w', state_after (property_enable 0 r true) w = Some w' /\
    Z.testbit (reg_content (grf w) (0 + offset r)) 7 = true /\
    Z.testbit (reg_content (grf w') (0 + offset r)) 7 = false.
Proof.
  simpl. split; [unfold reg_wf; simpl; lia|].
  split; [reflexivity|].
  eexists. split; [reflexivity|]. split; vm_compute; reflexivity.
Qed.

End BitField.

(** ** Configuration lookup *)

Section Lookup.

Import Tables.

Implicit Types (l pre rest : list rockchip_usb2phy_cfg) (c : rockchip_usb2phy_cfg).

Lemma list_find_cons_ne (r : Z) c l :
  reg c <> r ->
  list_find (fun c => reg c = r) (c :: l) =
  match list_find (fun c => reg c = r) l with
  | Some (i, x) => Some (S i, x)
  | None => None
  end.
Proof.
  intros H. cbn. destruct (decide (reg c = r)); [contradiction|].
  destruct (list_find _ l) as [[i x]|]; reflexivity.
Qed.

Lemma list_find_cons_eq (r : Z) c l :
  reg c = r -> list_find (fun c => reg c = r) (c :: l) = Some (0%nat, c).
Proof. intros H. cbn. destruct (decide (reg c = r)); [reflexivity | contradiction]. Qed.

(** The loop, entered at an entry [c] that is followed by a terminator,
    returns the first match among [c] and the entries up to the
    terminator. *)
Lemma find_phy_cfg_from rest : forall pre c fuel r,
  existsb (fun c => reg c =? 0) rest = true ->
  (length rest <= fuel)%nat -> (0 < fuel)%nat ->
  find_phy_cfg fuel (pre ++ c :: rest) r (length pre) =
  Some (shift_index (length pre)
          (list_find (fun c => reg c = r) (c :: until_sentinel rest))).
Proof.
  induction rest as [|c' rest IH]; intros pre c fuel r Hex Hfuel Hpos.
  - discriminate.
  - destruct fuel as [|fuel]; [lia|]. simpl in Hfuel.
    cbn [find_phy_cfg].
    rewrite (list_lookup_middle pre (c' :: rest) c (length pre) eq_refl).
    destruct (Z.eqb_spec (reg c) r) as [Heq|Hne].
    + rewrite list_find_cons_eq by assumption. reflexivity.
    + rewrite list_find_cons_ne by assumption.
      replace (pre ++ c :: c' :: rest) with ((pre ++ [c]) ++ c' :: rest)
        by (rewrite <- app_assoc; reflexivity).
      replace (S (length pre)) with (length (pre ++ [c]))
        by (rewrite length_app; simpl; lia).
      rewrite (list_lookup_middle (pre ++ [c]) rest c' _ eq_refl).
      cbn [until_sentinel]. cbn [existsb] in Hex.
      destruct (Z.eqb_spec (reg c') 0) as [Hz|Hnz]; cbn [negb].
      * reflexivity.
      * cbn [orb] in Hex.
        assert (0 < fuel)%nat as Hpos'.
        { destruct rest; [discriminate | simpl in Hfuel; lia]. }
        rewrite IH by (try assumption; lia).
        f_equal. unfold shift_index.
        destruct (list_find _ (c' :: until_sentinel rest)) as [[i x]|];
          cbn; [|reflexivity].
        rewrite length_app. cbn. do 2 f_equal. lia.
Qed.

(** On a terminated array the lookup of the probe routine returns, and
    returns what the specification's resolution returns. *)
Lemma lookup_phy_cfg_resolve phy_cfgs r :
  terminated phy_cfgs = true ->
  lookup_phy_cfg phy_cfgs r = Some (resolve_first_match phy_cfgs r).
Proof.
  destruct phy_cfgs as [|c rest]; [discriminate|]. intros Hterm.
  unfold lookup_phy_cfg, resolve_first_match, table_entries.
  pose proof (find_phy_cfg_from rest [] c (length (c :: rest)) r Hterm) as H.
  cbn [app length] in H |- *. rewrite H by (cbn; lia).
  f_equal. unfold shift_index.
  destruct (list_find _ _) as [[i x]|]; cbn; [|reflexivity].
  do 2 f_equal. lia.
Qed.

(** What a successful lookup returns, from any start index: an entry at or
    after the start whose [reg] is the requested one, with no zero [reg]
    strictly after the start up to it. *)
Lemma find_phy_cfg_found fuel : forall l r i0 j c,
  find_phy_cfg fuel l r i0 = Some (Some (j, c)) ->
  (i0 <= j)%nat /\ l !! j = Some c /\ reg c = r /\
  (forall k z, (i0 < k <= j)%nat -> l !! k = Some z -> reg z <> 0).
Proof.
  induction fuel as [|fuel IH]; intros l r i0 j c H; [discriminate|].
  cbn [find_phy_cfg] in H.
  destruct (l !! i0) as [c0|] eqn:E0; [|discriminate].
  destruct (Z.eqb_spec (reg c0) r) as [Heq|Hne].
  - injection H as <- <-. repeat split; try assumption; try lia.
  - destruct (l !! S i0) as [c1|] eqn:E1; [|discriminate].
    destruct (Z.eqb_spec (reg c1) 0) as [Hz|Hnz]; cbn [negb] in H;
      [discriminate|].
    apply IH in H. destruct H as (Hle & Hj & Hr & Hnz').
    repeat split; try assumption; try lia.
    intros k z Hk Hz. destruct (decide (k = S i0)) as [->|Hk'].
    + rewrite E1 in Hz. injection Hz as <-. assumption.
    + apply (Hnz' k z); [lia | assumption].
Qed.

End Lookup.

(** ** Probe *)

Section Probe.

Import Tables.

(** Probe once the register-base value [r] to match is settled: the entry
    selected is the first match of the table. *)
Lemma probe_resolved dev priv tbl r0 r w :
  IS_ERR (syscon_grf dev) = false ->
  ofnode_read_u32_index dev 0 = inr r0 ->
  (if (dev_read_addr_cells dev =? 2) && (r0 =? 0)
   then ofnode_read_u32_index dev 1 else inr r0) = inr r ->
  driver_data dev = Some tbl -> terminated tbl = true ->
  phy_cfg priv = None ->
  rockchip_usb2phy_probe dev priv w =
  match resolve_first_match tbl r with
  | None =>
      Some ((- EINVAL,
             {| reg_base := syscon_grf dev; phyclk := phyclk priv;
                phy_cfg := None |}),
            log_event w (EvDevErr MsgNoPhyCfg))
  | Some (_, c) =>
      if negb (phyclk_ret dev =? 0) then
        Some ((phyclk_ret dev,
               {| reg_base := syscon_grf dev; phyclk := phyclk priv;
                  phy_cfg := Some c |}),
              log_event w (EvDevErr (MsgGetPhyclkFailed (phyclk_ret dev))))
      else
        Some ((0, {| reg_base := syscon_grf dev; phyclk := phyclk_found dev;
                     phy_cfg := Some c |}), w)
  end.
Proof.
  intros Herr Hr0 Hr Hdd Hterm Hnull.
  unfold rockchip_usb2phy_probe. cbn [reg_base phyclk phy_cfg].
  rewrite Herr, Hr0, Hr, Hdd.
  fold (lookup_phy_cfg tbl r). rewrite (lookup_phy_cfg_resolve tbl r Hterm).
  destruct (resolve_first_match tbl r) as [[i c]|]; cbn [phy_cfg].
  - destruct (negb (phyclk_ret dev =? 0)); reflexivity.
  - rewrite Hnull. reflexivity.
Qed.

(** C3.  Config resolution is a function of the table and the register
    base: on every sentinel-terminated table the lookup of the probe
    routine returns the first entry, in table order, whose [reg] equals the
    register base read from the node, and probe records it; when no entry
    matches, probe logs the failure, returns [-EINVAL] and leaves the
    config unset; the outcome is the same whatever the hardware state, so
    repeated calls yield the identical config. *)
Theorem probe_selects_first_match dev tbl r w :
  IS_ERR (syscon_grf dev) = false ->
  ofnode_read_u32_index dev 0 = inr r ->
  (dev_read_addr_cells dev =? 2) && (r =? 0) = false ->
  driver_data dev = Some tbl -> terminated tbl = true ->
  lookup_phy_cfg tbl r = Some (resolve_first_match tbl r) /\
  match resolve_first_match tbl r with
  | Some (i, c) =>
      (table_entries tbl !! i = Some c /\ reg c = r /\
       forall j y, table_entries tbl !! j = Some y -> (j < i)%nat -> reg y <> r) /\
      exists e priv' w',
        rockchip_usb2phy_probe dev priv_auto w = Some ((e, priv'), w') /\
        phy_cfg priv' = Some c
  | None =>
      (forall y, y ∈ table_entries tbl -> reg y <> r) /\
      rockchip_usb2phy_probe dev priv_auto w =
      Some ((- EINVAL,
             {| reg_base := syscon_grf dev; phyclk := phyclk priv_auto;
                phy_cfg := None |}),
            log_event w (EvDevErr MsgNoPhyCfg))
  end /\
  (forall w2, result (rockchip_usb2phy_probe dev priv_auto) w2 =
              result (rockchip_usb2phy_probe dev priv_auto) w).
Proof.
  intros Herr Hr0 Hac Hdd Hterm.
  assert ((if (dev_read_addr_cells dev =? 2) && (r =? 0)
           then ofnode_read_u32_index dev 1 else inr r) = inr r) as Hr
    by (rewrite Hac; reflexivity).
  pose proof (fun w => probe_resolved dev priv_auto tbl r r w Herr Hr0 Hr Hdd
                         Hterm eq_refl) as Hprobe.
  split; [apply lookup_phy_cfg_resolve; assumption|]. split.
  - rewrite (Hprobe w). unfold resolve_first_match.
    destruct (list_find _ _) as [[i c]|] eqn:Hfind.
    + apply list_find_Some in Hfind. split; [exact Hfind|].
      destruct (negb (phyclk_ret dev =? 0)); do 3 eexists; split; reflexivity.
    + split; [|reflexivity]. apply list_find_None in Hfind.
      rewrite Forall_forall in Hfind. exact Hfind.
  - intros w2. unfold result. rewrite (Hprobe w), (Hprobe w2).
    destruct (resolve_first_match tbl r) as [[i c]|]; [|reflexivity].
    destruct (negb (phyclk_ret dev =? 0)); reflexivity.
Qed.

Lemma probe_selects_first_match_witness :
  let dev := mk_udevice 0xfdc50000 (Some [0xfe8b0000]) 1
               (Some rk3568_phy_cfgs) 0 (mk_clk 0 0) in
  let r := 0xfe8b0000 in
  lookup_phy_cfg rk3568_phy_cfgs r =
    Some (resolve_first_match rk3568_phy_cfgs r) /\
  match resolve_first_match rk3568_phy_cfgs r with
  | Some (i, c) =>
      (table_entries rk3568_phy_cfgs !! i = Some c /\ reg c = r /\
       forall j y, table_entries rk3568_phy_cfgs !! j = Some y ->
                   (j < i)%nat -> reg y <> r) /\
      exists e priv' w',
        rockchip_usb2phy_probe dev priv_auto (hw_reset ∅) = Some ((e, priv'), w') /\
        phy_cfg priv' = Some c
  | None =>
      (forall y, y ∈ table_entries rk3568_phy_cfgs -> reg y <> r) /\
      rockchip_usb2phy_probe dev priv_auto (hw_reset ∅) =
      Some ((- EINVAL,
             {| reg_base := syscon_grf dev; phyclk := phyclk priv_auto;
                phy_cfg := None |}),
            log_event (hw_reset ∅) (EvDevErr MsgNoPhyCfg))
  end /\
  (forall w2, result (rockchip_usb2phy_probe dev priv_auto) w2 =
              result (rockchip_usb2phy_probe dev priv_auto) (hw_reset ∅)).
Proof.
  intros dev r.
  apply (probe_selects_first_match dev rk3568_phy_cfgs r (hw_reset ∅));
    reflexivity.
Defined.

(** C4 (as amended).  An entry whose [reg] is 0 at a position other than
    the first is never returned: it ends the scan, so only entries before
    it can be returned, whatever register base is requested.  The first
    entry is compared before the end-of-table test: when its [reg] is 0 it
    is returned exactly when the requested register base is 0. *)
Theorem zero_reg_entry_lookup tbl r i z :
  tbl !! i = Some z -> reg z = 0 ->
  (i <> 0%nat ->
   forall j c, lookup_phy_cfg tbl r = Some (Some (j, c)) -> (j < i)%nat) /\
  (i = 0%nat ->
   lookup_phy_cfg tbl r = Some (Some (0%nat, z)) <-> r = 0).
Proof.
  intros Hi Hz. split.
  - intros Hne j c Hfound. unfold lookup_phy_cfg in Hfound.
    apply find_phy_cfg_found in Hfound. destruct Hfound as (_ & _ & _ & Hnz).
    destruct (decide (j < i)%nat) as [|Hge]; [assumption|].
    exfalso. apply (Hnz i z); [lia | assumption | assumption].
  - intros ->. split.
    + intros Hfound. unfold lookup_phy_cfg in Hfound.
      apply find_phy_cfg_found in Hfound. destruct Hfound as (_ & _ & Hr & _).
      congruence.
    + intros ->. unfold lookup_phy_cfg.
      destruct tbl as [|c tbl]; [discriminate|].
      cbn in Hi. injection Hi as ->. cbn. rewrite Hz. reflexivity.
Qed.

Lemma zero_reg_entry_lookup_witness :
  (1 < 2)%nat /\
  lookup_phy_cfg rk3588_phy_cfgs 0 =
    Some (Some (0%nat, nth_cfg rk3588_phy_cfgs 0)).
Proof.
  split.
  - apply (proj1 (zero_reg_entry_lookup rk3399_usb2phy_cfgs 0xe460 2
                    cfg_sentinel eq_refl eq_refl)
             ltac:(discriminate) 1%nat (nth_cfg rk3399_usb2phy_cfgs 1)).
    reflexivity.
  - apply (proj2 (zero_reg_entry_lookup rk3588_phy_cfgs 0 0
                    (nth_cfg rk3588_phy_cfgs 0) eq_refl eq_refl)
             eq_refl).
    reflexivity.
Defined.

(** C4 as stated fails.  The first entry of the rk3588 table has [reg] 0
    and the lookup returns it for the register base 0; probe then
    succeeds with that entry as its config. *)
Lemma rk3588_zero_reg_entry_returned :
  let dev := mk_udevice 0xfd5d0000 (Some [0]) 1 (Some rk3588_phy_cfgs) 0
               (mk_clk 0 0) in
  rk3588_phy_cfgs !! 0%nat = Some (nth_cfg rk3588_phy_cfgs 0) /\
  reg (nth_cfg rk3588_phy_cfgs 0) = 0 /\
  lookup_phy_cfg rk3588_phy_cfgs 0 = Some (Some (0%nat, nth_cfg rk3588_phy_cfgs 0)) /\
  result (rockchip_usb2phy_probe dev priv_auto) (hw_reset ∅) =
  Some (0, probed 0xfd5d0000 (mk_clk 0 0) (nth_cfg rk3588_phy_cfgs 0)).
Proof. repeat split. Qed.

(** C9 (as amended).  When the node declares 2-cell addressing and the
    first cell of [reg] is 0, the second cell takes its place before the
    one lookup probe makes; no lookup is made with the first cell.  If the
    second cell cannot be read, probe logs it, returns [-EINVAL] and leaves
    the private data without a config; otherwise the entry recorded is the
    first match of the table for the second cell, and when the table has no
    entry for it probe logs that and returns [-EINVAL]. *)
Theorem probe_two_address_cells dev priv w :
  IS_ERR (syscon_grf dev) = false ->
  dev_read_addr_cells dev = 2 ->
  ofnode_read_u32_index dev 0 = inr 0 ->
  match ofnode_read_u32_index dev 1 with
  | inl _ =>
      rockchip_usb2phy_probe dev priv w =
      Some ((- EINVAL,
             {| reg_base := syscon_grf dev; phyclk := phyclk priv;
                phy_cfg := phy_cfg priv |}),
            log_event w (EvDevErr MsgMustHaveReg1))
  | inr r2 =>
      forall tbl,
        driver_data dev = Some tbl -> terminated tbl = true ->
        phy_cfg priv = None ->
        exists e priv' w',
          rockchip_usb2phy_probe dev priv w = Some ((e, priv'), w') /\
          phy_cfg priv' = snd <$> resolve_first_match tbl r2 /\
          (resolve_first_match tbl r2 = None ->
           e = - EINVAL /\ w' = log_event w (EvDevErr MsgNoPhyCfg))
  end.
Proof.
  intros Herr Hac Hr0.
  destruct (ofnode_read_u32_index dev 1) as [e1|r2] eqn:Hr1.
  - unfold rockchip_usb2phy_probe. cbn [reg_base phyclk phy_cfg].
    rewrite Herr, Hr0, Hac, Hr1. reflexivity.
  - intros tbl Hdd Hterm Hnull.
    rewrite (probe_resolved dev priv tbl 0 r2 w Herr Hr0) by
      (try assumption; rewrite Hac; assumption).
    destruct (resolve_first_match tbl r2) as [[i c]|].
    + destruct (negb (phyclk_ret dev =? 0)); do 3 eexists;
        (split; [reflexivity|]); (split; [reflexivity | discriminate]).
    + do 3 eexists. split; [reflexivity|]. split; [reflexivity|].
      intros _. split; reflexivity.
Qed.

Lemma probe_two_address_cells_witness :
  (let dev := mk_udevice 0xfdc50000 (Some [0]) 2 (Some rk3568_phy_cfgs) 0
                (mk_clk 0 0) in
   rockchip_usb2phy_probe dev priv_auto (hw_reset ∅) =
   Some ((- EINVAL,
          {| reg_base := 0xfdc50000; phyclk := phyclk priv_auto;
             phy_cfg := None |}),
         log_event (hw_reset ∅) (EvDevErr MsgMustHaveReg1))) /\
  (let dev := mk_udevice 0xfdc50000 (Some [0; 0xfe8a0000]) 2
                (Some rk3568_phy_cfgs) 0 (mk_clk 0 0) in
   exists e priv' w',
     rockchip_usb2phy_probe dev priv_auto (hw_reset ∅) = Some ((e, priv'), w') /\
     phy_cfg priv' = snd <$> resolve_first_match rk3568_phy_cfgs 0xfe8a0000 /\
     (resolve_first_match rk3568_phy_cfgs 0xfe8a0000 = None ->
      e = - EINVAL /\ w' = log_event (hw_reset ∅) (EvDevErr MsgNoPhyCfg))).
Proof.
  split.
  - exact (probe_two_address_cells
             (mk_udevice 0xfdc50000 (Some [0]) 2 (Some rk3568_phy_cfgs) 0
                (mk_clk 0 0))
             priv_auto (hw_reset ∅) eq_refl eq_refl eq_refl).
  - exact (probe_two_address_cells
             (mk_udevice 0xfdc50000 (Some [0; 0xfe8a0000]) 2
                (Some rk3568_phy_cfgs) 0 (mk_clk 0 0))
             priv_auto (hw_reset ∅) eq_refl eq_refl eq_refl
             rk3568_phy_cfgs eq_refl eq_refl eq_refl).
Defined.

(** C9 as stated fails.  Probe does not retry: it never looks the first
    cell up.  On the rk3588 table a lookup of the first cell, 0, succeeds
    with entry 0, so a resolution that retries with the second cell only
    after a failed first attempt selects entry 0; probe, given the cells
    [0 0x4000] under 2-cell addressing, records the entry for [0x4000]
    instead, and given [0 0x1234] it fails with [-EINVAL]. *)
Lemma probe_two_address_cells_no_retry :
  let dev := mk_udevice 0xfd5d0000 (Some [0; 0x4000]) 2
               (Some rk3588_phy_cfgs) 0 (mk_clk 0 0) in
  let dev' := mk_udevice 0xfd5d0000 (Some [0; 0x1234]) 2
                (Some rk3588_phy_cfgs) 0 (mk_clk 0 0) in
  resolve_with_retry rk3588_phy_cfgs 2 0 (Some 0x4000) =
    Some (0%nat, nth_cfg rk3588_phy_cfgs 0) /\
  result (rockchip_usb2phy_probe dev priv_auto) (hw_reset ∅) =
    Some (0, probed 0xfd5d0000 (mk_clk 0 0) (nth_cfg rk3588_phy_cfgs 1)) /\
  reg (nth_cfg rk3588_phy_cfgs 0) = 0 /\
  reg (nth_cfg rk3588_phy_cfgs 1) = 0x4000 /\
  resolve_with_retry rk3588_phy_cfgs 2 0 (Some 0x1234) =
    Some (0%nat, nth_cfg rk3588_phy_cfgs 0) /\
  rockchip_usb2phy_probe dev' priv_auto (hw_reset ∅) =
    Some ((- EINVAL,
           {| reg_base := 0xfd5d0000; phyclk := phyclk priv_auto;
              phy_cfg := None |}),
          log_event (hw_reset ∅) (EvDevErr MsgNoPhyCfg)).
Proof. repeat split. Qed.

End Probe.

(** ** The PHY and clock operations *)

Section Operations.

Import Tables.

Lemma events_of_appended {A} (m : M A) w a w' evs :
  m w = Some (a, w') -> trace w' = trace w ++ evs -> events_of m w = evs.
Proof.
  intros Hm Ht. unfold events_of. rewrite Hm, Ht. apply drop_app_length.
Qed.

(** What the operations do on a probed device, step by step. *)
Lemma power_on_run base c cfg p w :
  rockchip_usb2phy_power_on (probed base c cfg) p w =
  let r := phy_sus (port_cfgs cfg (id p)) in
  Some (0, {| grf := <[base + offset r :=
                         masked_store (reg_content (grf w) (base + offset r))
                                      (property_enable_val r false)]> (grf w);
              trace := trace w ++
                [EvPropertyEnable r false;
                 EvWritel (property_enable_val r false) (base + offset r);
                 EvUdelay 2000] |}).
Proof. cbn. rewrite <- !app_assoc. reflexivity. Qed.

Lemma power_off_run base c cfg p w :
  rockchip_usb2phy_power_off (probed base c cfg) p w =
  let r := phy_sus (port_cfgs cfg (id p)) in
  Some (0, {| grf := <[base + offset r :=
                         masked_store (reg_content (grf w) (base + offset r))
                                      (property_enable_val r true)]> (grf w);
              trace := trace w ++
                [EvPropertyEnable r true;
                 EvWritel (property_enable_val r true) (base + offset r)] |}).
Proof. cbn. rewrite <- !app_assoc. reflexivity. Qed.

Lemma init_run_error base c cfg p w :
  clk_enable_ret c <> 0 -> clk_enable_ret c <> - ENOSYS ->
  rockchip_usb2phy_init (probed base c cfg) p w =
  Some (clk_enable_ret c,
        {| grf := grf w;
           trace := trace w ++
             [EvClkEnable; EvDevErr (MsgEnablePhyclkFailed (clk_enable_ret c))] |}).
Proof.
  intros H0 H1. unfold rockchip_usb2phy_init, bind. cbn.
  apply Z.eqb_neq in H0, H1. rewrite H0, H1. cbn.
  rewrite <- !app_assoc. reflexivity.
Qed.

Lemma init_run_ok base c cfg p w :
  clk_enable_ret c = 0 \/ clk_enable_ret c = - ENOSYS ->
  exists g,
    rockchip_usb2phy_init (probed base c cfg) p w =
    let pc := port_cfgs cfg (id p) in
    Some (0, {| grf := g;
                trace := trace w ++
                  [EvClkEnable;
                   EvPropertyEnable (bvalid_det_clr pc) true;
                   EvWritel (property_enable_val (bvalid_det_clr pc) true)
                            (base + offset (bvalid_det_clr pc));
                   EvPropertyEnable (bvalid_det_en pc) true;
                   EvWritel (property_enable_val (bvalid_det_en pc) true)
                            (base + offset (bvalid_det_en pc))] |}).
Proof.
  intros H. unfold rockchip_usb2phy_init, bind. cbn.
  assert (negb (clk_enable_ret c =? 0) && negb (clk_enable_ret c =? - ENOSYS)
          = false) as ->.
  { destruct H as [-> | ->]; reflexivity. }
  destruct (id p); cbn; rewrite <- !app_assoc; eexists; reflexivity.
Qed.

(** C6.  [init] returns a nonzero value exactly when enabling the clock
    returns an error other than [-ENOSYS], and then it returns that error,
    issues no store and leaves every register as it was; when the clock
    reports [-ENOSYS], as when it reports success, [init] goes on to write
    the two detect fields and returns 0. *)
Theorem init_fails_iff_clk_enable_fails base c cfg p w :
  let priv := probed base c cfg in
  let pc := port_cfgs cfg (id p) in
  let e := clk_enable_ret c in
  exists r w',
    rockchip_usb2phy_init priv p w = Some (r, w') /\
    (r <> 0 <-> e <> 0 /\ e <> - ENOSYS) /\
    (r <> 0 -> r = e /\ grf w' = grf w /\
               stores (events_of (rockchip_usb2phy_init priv p) w) = []) /\
    (e = 0 \/ e = - ENOSYS ->
       r = 0 /\
       accessed_fields (events_of (rockchip_usb2phy_init priv p) w) =
       [bvalid_det_clr pc; bvalid_det_en pc]).
Proof.
  intros priv pc e. subst priv pc e.
  destruct (decide (clk_enable_ret c = 0 \/ clk_enable_ret c = - ENOSYS))
    as [Hok|Herr].
  - destruct (init_run_ok base c cfg p w Hok) as [g Hrun]. cbv zeta in Hrun.
    do 2 eexists. split; [exact Hrun|]. split; [|split].
    + split; [congruence | lia].
    + congruence.
    + intros _. split; [reflexivity|].
      erewrite events_of_appended by (try exact Hrun; reflexivity). reflexivity.
  - assert (clk_enable_ret c <> 0 /\ clk_enable_ret c <> - ENOSYS)
      as [H0 H1] by lia.
    pose proof (init_run_error base c cfg p w H0 H1) as Hrun.
    do 2 eexists. split; [exact Hrun|]. split; [|split].
    + split; [intros _; split; assumption | intros _; assumption].
    + intros _. split; [reflexivity|]. split; [reflexivity|].
      erewrite events_of_appended by (try exact Hrun; reflexivity). reflexivity.
    + intros [?|?]; contradiction.
Qed.

Lemma init_fails_iff_clk_enable_fails_witness :
  let priv := probed 0 (mk_clk (-5) 0) (nth_cfg rk3568_phy_cfgs 0) in
  let p := mk_phy "otg-port" USB2PHY_PORT_OTG in
  exists r w',
    rockchip_usb2phy_init priv p (hw_reset ∅) = Some (r, w') /\
    (r <> 0 <-> -5 <> 0 /\ -5 <> - ENOSYS) /\
    (r <> 0 -> r = -5 /\ grf w' = ∅ /\
               stores (events_of (rockchip_usb2phy_init priv p) (hw_reset ∅)) = []) /\
    (-5 = 0 \/ -5 = - ENOSYS ->
       r = 0 /\
       accessed_fields (events_of (rockchip_usb2phy_init priv p) (hw_reset ∅)) =
       [bvalid_det_clr (port_cfgs (nth_cfg rk3568_phy_cfgs 0) USB2PHY_PORT_OTG);
        bvalid_det_en (port_cfgs (nth_cfg rk3568_phy_cfgs 0) USB2PHY_PORT_OTG)]).
Proof.
  exact (init_fails_iff_clk_enable_fails 0 (mk_clk (-5) 0)
           (nth_cfg rk3568_phy_cfgs 0) (mk_phy "otg-port" USB2PHY_PORT_OTG)
           (hw_reset ∅)).
Defined.







(** C8 (as amended).  For every port whose suspend field satisfies the
    invariant and lies in the low 16 bits, [power_on] followed by
    [power_off] returns 0 and leaves the suspend field holding its
    enabled-state encoding ([enable]): [power_off] is the operation that
    asserts suspend. *)
Theorem power_on_then_off_suspend_enabled base c cfg p w :
  let priv := probed base c cfg in
  let r := phy_sus (port_cfgs cfg (id p)) in
  reg_wf r -> reg_writeable r ->
  exists w',
    (let* _ := rockchip_usb2phy_power_on priv p in
     rockchip_usb2phy_power_off priv p) w = Some (0, w') /\
    field_value (grf w') base r = enable r.
Proof.
  intros priv r Hwf Hw. subst priv. unfold bind.
  rewrite power_on_run. cbv beta iota zeta. rewrite power_off_run. cbv zeta.
  eexists. split; [reflexivity|]. cbn [grf]. fold r.
  apply (field_value_after_enable base r true _ Hwf Hw).
Qed.

Lemma power_on_then_off_suspend_enabled_witness :
  let priv := probed 0 (mk_clk 0 0) (nth_cfg rk3568_phy_cfgs 0) in
  let p := mk_phy "otg-port" USB2PHY_PORT_OTG in
  exists w',
    (let* _ := rockchip_usb2phy_power_on priv p in
     rockchip_usb2phy_power_off priv p) (hw_reset ∅) = Some (0, w') /\
    field_value (grf w') 0 (mk_reg 0x0000 8 0 0x052 0x1d1) = 0x1d1.
Proof.
  intros priv p.
  apply (power_on_then_off_suspend_enabled 0 (mk_clk 0 0)
           (nth_cfg rk3568_phy_cfgs 0) p (hw_reset ∅)).
  - unfold reg_wf; simpl; lia.
  - unfold reg_writeable, BIT_WRITEABLE_SHIFT; simpl; lia.
Defined.

(** C8 as stated fails.  On the OTG port of the first rk3568 entry,
    [power_on] then [power_off] leaves the suspend field at [0x1d1], its
    enabled-state encoding, not at the disabled-state encoding [0x052]. *)
Lemma power_on_then_off_not_disabled_encoding :
  let cfg := nth_cfg rk3568_phy_cfgs 0 in
  let priv := probed 0 (mk_clk 0 0) cfg in
  let p := mk_phy "otg-port" USB2PHY_PORT_OTG in
  let r := phy_sus (port_cfgs cfg USB2PHY_PORT_OTG) in
  disable r = 0x052 /\
  exists w',
    (let* _ := rockchip_usb2phy_power_on priv p in
     rockchip_usb2phy_power_off priv p) (hw_reset ∅) = Some (0, w') /\
    field_value (grf w') 0 r = 0x1d1 /\
    field_value (grf w') 0 r <> disable r.
Proof.
  cbv zeta. split; [reflexivity|]. eexists. split; [reflexivity|].
  split; [vm_compute; reflexivity | vm_compute; discriminate].
Qed.

(** The suspend field of every port of every table satisfies the invariant
    and lies in the low 16 bits. *)
Lemma tables_phy_sus_writeable cfg port :
  cfg ∈ rk3399_usb2phy_cfgs ++ rk3568_phy_cfgs ++ rk3588_phy_cfgs ->
  reg_wf (phy_sus (port_cfgs cfg port)) /\
  reg_writeable (phy_sus (port_cfgs cfg port)).
Proof.
  intros Hin. apply reg_okb_sound.
  assert (forallb (fun cfg =>
                     reg_okb (phy_sus (port_cfgs cfg USB2PHY_PORT_OTG))
                     && reg_okb (phy_sus (port_cfgs cfg USB2PHY_PORT_HOST)))
            (rk3399_usb2phy_cfgs ++ rk3568_phy_cfgs ++ rk3588_phy_cfgs) = true)
    as Hall by (vm_compute; reflexivity).
  rewrite forallb_forall in Hall. apply list_elem_of_In in Hin.
  specialize (Hall cfg Hin). apply andb_prop in Hall.
  destruct port; tauto.
Qed.

(** C10.  [power_on], [power_off], [exit] and [of_xlate] return 0 for
    every port and every input: [power_on] and [power_off] have no failing
    path, [exit] drops what disabling the clock returns, and [of_xlate]
    returns 0 for every name. *)
Theorem port_operations_return_zero base c cfg priv p w :
  result (rockchip_usb2phy_power_on (probed base c cfg) p) w = Some 0 /\
  result (rockchip_usb2phy_power_off (probed base c cfg) p) w = Some 0 /\
  result (rockchip_usb2phy_exit priv p) w = Some 0 /\
  fst <$> result (rockchip_usb2phy_of_xlate p) w = Some 0.
Proof.
  unfold result. rewrite power_on_run, power_off_run.
  repeat split. unfold rockchip_usb2phy_of_xlate.
  destruct (strcasecmp (dev_name p) "host-port" =? 0); [reflexivity|].
  destruct (strcasecmp (dev_name p) "otg-port" =? 0); reflexivity.
Qed.

End Operations.

(** ** Port names *)

Section PortNames.

(** Two characters lower to the same character exactly when they are the
    same letter up to case. *)
Lemma tolower_eq_same_letter a b :
  (tolower a =? tolower b) = same_letter a b.
Proof.
  unfold tolower, same_letter, is_upper, is_lower.
  repeat match goal with
  | |- context [?x <=? ?y] => destruct (Z.leb_spec x y); cbn [andb orb]
  end;
  repeat match goal with
  | |- context [?x =? ?y] => destruct (Z.eqb_spec x y); cbn [andb orb]
  end; try reflexivity; lia.
Qed.

Lemma same_letter_refl a : same_letter a a = true.
Proof. unfold same_letter. rewrite Z.eqb_refl. reflexivity. Qed.

(** On C strings, [strcasecmp] returns 0 exactly on case variants. *)
Lemma strcasecmp_zero s : forall t,
  c_string s = true -> c_string t = true ->
  (strcasecmp s t =? 0) = case_variant s t.
Proof.
  induction s as [|a s IH]; intros [|b t] Hs Ht; cbn [strcasecmp case_variant].
  - reflexivity.
  - cbn [c_string] in Ht. apply andb_prop in Ht. destruct Ht as [Hb _].
    apply negb_true_iff, Z.eqb_neq in Hb. apply Z.eqb_neq. lia.
  - cbn [c_string] in Hs. apply andb_prop in Hs. destruct Hs as [Ha _].
    apply negb_true_iff, Z.eqb_neq in Ha. apply Z.eqb_neq. lia.
  - cbn [c_string] in Hs, Ht.
    apply andb_prop in Hs. destruct Hs as [Ha Hs].
    apply andb_prop in Ht. destruct Ht as [Hb Ht].
    apply negb_true_iff in Ha, Hb. rewrite Ha, Hb.
    destruct (Z.eqb_spec (char_code a) (char_code b)) as [Heq|Hne].
    + rewrite Heq, same_letter_refl. cbn [andb]. apply IH; assumption.
    + rewrite <- tolower_eq_same_letter.
      destruct (Z.eqb_spec (tolower (char_code a)) (tolower (char_code b)))
        as [Hl|Hl]; cbn [negb andb].
      * apply IH; assumption.
      * apply Z.eqb_neq. lia.
Qed.

Lemma case_variant_length s : forall t,
  case_variant s t = true -> String.length s = String.length t.
Proof.
  induction s as [|a s IH]; intros [|b t] H; cbn in H |- *;
    try discriminate; try reflexivity.
  apply andb_prop in H. destruct H as [_ H]. f_equal. apply IH, H.
Qed.

(** C7.  [of_xlate] matches the device name without regard to case: a
    case variant of ["host-port"] selects the host port and a case variant
    of ["otg-port"] the OTG port; for every other name the error is logged,
    the port id is left as it was (the zero value, OTG, in a zero-filled
    [struct phy]) and the call still returns 0. *)
Theorem of_xlate_case_insensitive p w :
  c_string (dev_name p) = true ->
  (case_variant (dev_name p) "host-port" = true ->
   rockchip_usb2phy_of_xlate p w =
   Some ((0, {| dev_name := dev_name p; id := USB2PHY_PORT_HOST |}), w)) /\
  (case_variant (dev_name p) "otg-port" = true ->
   rockchip_usb2phy_of_xlate p w =
   Some ((0, {| dev_name := dev_name p; id := USB2PHY_PORT_OTG |}), w)) /\
  (case_variant (dev_name p) "host-port" = false ->
   case_variant (dev_name p) "otg-port" = false ->
   rockchip_usb2phy_of_xlate p w =
   Some ((0, p), log_event w (EvDevErr (MsgImproperDevice (dev_name p))))).
Proof.
  intros Hname. unfold rockchip_usb2phy_of_xlate.
  rewrite !strcasecmp_zero by (try assumption; reflexivity).
  split; [|split].
  - intros ->. reflexivity.
  - intros Hotg.
    destruct (case_variant (dev_name p) "host-port") eqn:Hhost.
    + apply case_variant_length in Hotg, Hhost. cbn in Hotg, Hhost. congruence.
    + rewrite Hotg. reflexivity.
  - intros -> ->. reflexivity.
Qed.

Lemma of_xlate_case_insensitive_witness :
  rockchip_usb2phy_of_xlate (mk_phy "HOST-PORT" USB2PHY_PORT_OTG) (hw_reset ∅) =
    Some ((0, mk_phy "HOST-PORT" USB2PHY_PORT_HOST), hw_reset ∅) /\
  rockchip_usb2phy_of_xlate (mk_phy "Otg-Port" USB2PHY_PORT_HOST) (hw_reset ∅) =
    Some ((0, mk_phy "Otg-Port" USB2PHY_PORT_OTG), hw_reset ∅) /\
  rockchip_usb2phy_of_xlate (mk_phy "weird" USB2PHY_PORT_OTG) (hw_reset ∅) =
    Some ((0, mk_phy "weird" USB2PHY_PORT_OTG),
          log_event (hw_reset ∅) (EvDevErr (MsgImproperDevice "weird"))).
Proof.
  split; [|split].
  - exact (proj1 (of_xlate_case_insensitive
                    (mk_phy "HOST-PORT" USB2PHY_PORT_OTG) (hw_reset ∅) eq_refl)
             eq_refl).
  - exact (proj1 (proj2 (of_xlate_case_insensitive
                           (mk_phy "Otg-Port" USB2PHY_PORT_HOST) (hw_reset ∅)
                           eq_refl))
             eq_refl).
  - exact (proj2 (proj2 (of_xlate_case_insensitive
                           (mk_phy "weird" USB2PHY_PORT_OTG) (hw_reset ∅)
                           eq_refl))
             eq_refl eq_refl).
Defined.

End PortNames.

(** ** Composition of field writes *)

Section FieldWrites.

Import Tables.

Lemma masked_store_absorb r e1 e2 orig :
  reg_wf r -> reg_writeable r ->
  masked_store (masked_store orig (property_enable_val r e1))
               (property_enable_val r e2)
  = masked_store orig (property_enable_val r e2).
Proof.
  intros Hwf Hw. apply Z.bits_inj'. intros i Hi.
  rewrite !masked_store_field by assumption.
  destruct (in_field r i); reflexivity.
Qed.

Lemma masked_store_commute r1 r2 e1 e2 orig :
  reg_wf r1 -> reg_writeable r1 -> reg_wf r2 -> reg_writeable r2 ->
  bitend r1 < bitstart r2 \/ bitend r2 < bitstart r1 ->
  masked_store (masked_store orig (property_enable_val r1 e1))
               (property_enable_val r2 e2)
  = masked_store (masked_store orig (property_enable_val r2 e2))
                 (property_enable_val r1 e1).
Proof.
  intros Hwf1 Hw1 Hwf2 Hw2 Hapart. apply Z.bits_inj'. intros i Hi.
  rewrite !masked_store_field by assumption. unfold in_field.
  destruct (Z.leb_spec (bitstart r1) i), (Z.leb_spec i (bitend r1)),
    (Z.leb_spec (bitstart r2) i), (Z.leb_spec i (bitend r2));
    cbn [andb]; try reflexivity; lia.
Qed.

(** The register file after two writes in a row. *)
Lemma property_enable_twice_run base r1 e1 r2 e2 w :
  state_after (let* _ := property_enable base r1 e1 in
               property_enable base r2 e2) w =
  Some {| grf :=
            <[base + offset r2 :=
                masked_store
                  (reg_content
                     (<[base + offset r1 :=
                          masked_store (reg_content (grf w) (base + offset r1))
                                       (property_enable_val r1 e1)]> (grf w))
                     (base + offset r2))
                  (property_enable_val r2 e2)]>
              (<[base + offset r1 :=
                   masked_store (reg_content (grf w) (base + offset r1))
                                (property_enable_val r1 e1)]> (grf w));
          trace := (((trace w ++ [EvPropertyEnable r1 e1])
                       ++ [EvWritel (property_enable_val r1 e1) (base + offset r1)])
                      ++ [EvPropertyEnable r2 e2])
                     ++ [EvWritel (property_enable_val r2 e2) (base + offset r2)] |}.
Proof. reflexivity. Qed.

(** X1.  A second write to a field overrides the first: the registers
    after writing [e1] and then [e2] to a field are the registers after
    writing [e2] alone. *)
Theorem property_enable_last_write_wins base r e1 e2 w :
  reg_wf r -> reg_writeable r ->
  grf <$> state_after (let* _ := property_enable base r e1 in
                       property_enable base r e2) w
  = grf <$> state_after (property_enable base r e2) w.
Proof.
  intros Hwf Hw. rewrite property_enable_twice_run.
  unfold state_after at 1. rewrite property_enable_run. cbn.
  f_equal. rewrite reg_content_insert_eq, insert_insert_eq.
  rewrite masked_store_absorb by assumption. reflexivity.
Qed.

Lemma property_enable_last_write_wins_witness :
  grf <$> state_after
            (let* _ := property_enable 0 (mk_reg 0x0000 8 0 0x052 0x1d1) true in
             property_enable 0 (mk_reg 0x0000 8 0 0x052 0x1d1) false)
            (hw_reset {[ 0 := 0xffff ]})
  = grf <$> state_after
              (property_enable 0 (mk_reg 0x0000 8 0 0x052 0x1d1) false)
              (hw_reset {[ 0 := 0xffff ]}).
Proof.
  apply (property_enable_last_write_wins 0 (mk_reg 0x0000 8 0 0x052 0x1d1)
           true false (hw_reset {[ 0 := 0xffff ]})).
  - unfold reg_wf; simpl; lia.
  - unfold reg_writeable, BIT_WRITEABLE_SHIFT; simpl; lia.
Defined.

(** X2.  Writes to two fields that share no bit (different registers, or
    disjoint ranges of one register) commute: either order leaves the same
    registers. *)
Theorem property_enable_commutes base r1 e1 r2 e2 w :
  reg_wf r1 -> reg_writeable r1 -> reg_wf r2 -> reg_writeable r2 ->
  fields_apart r1 r2 ->
  grf <$> state_after (let* _ := property_enable base r1 e1 in
                       property_enable base r2 e2) w
  = grf <$> state_after (let* _ := property_enable base r2 e2 in
                         property_enable base r1 e1) w.
Proof.
  intros Hwf1 Hw1 Hwf2 Hw2 Hapart. rewrite !property_enable_twice_run. cbn.
  f_equal. destruct (decide (offset r1 = offset r2)) as [Heq|Hne].
  - destruct Hapart as [Hoff|Hbits]; [contradiction|].
    rewrite Heq. rewrite !reg_content_insert_eq, !insert_insert_eq.
    rewrite (masked_store_commute r1 r2) by assumption. reflexivity.
  - assert (base + offset r1 <> base + offset r2) as Ha by lia.
    rewrite !reg_content_insert_ne by congruence.
    apply insert_insert_ne. congruence.
Qed.

Lemma property_enable_commutes_witness :
  grf <$> state_after
            (let* _ := property_enable 0 (mk_reg 0x0080 2 2 0 1) true in
             property_enable 0 (mk_reg 0x0080 0 0 0 1) true)
            (hw_reset ∅)
  = grf <$> state_after
              (let* _ := property_enable 0 (mk_reg 0x0080 0 0 0 1) true in
               property_enable 0 (mk_reg 0x0080 2 2 0 1) true)
              (hw_reset ∅).
Proof.
  apply (property_enable_commutes 0 (mk_reg 0x0080 2 2 0 1) true
           (mk_reg 0x0080 0 0 0 1) true (hw_reset ∅)).
  - unfold reg_wf; simpl; lia.
  - unfold reg_writeable, BIT_WRITEABLE_SHIFT; simpl; lia.
  - unfold reg_wf; simpl; lia.
  - unfold reg_writeable, BIT_WRITEABLE_SHIFT; simpl; lia.
  - unfold fields_apart; simpl; lia.
Defined.

(** X3.  A field whose two encodings coincide never reads as enabled:
    whatever is written to it, [property_enabled] returns false
    afterwards. *)
Theorem property_enabled_false_on_equal_encodings base r en w :
  reg_wf r -> reg_writeable r -> enable r = disable r ->
  result (let* _ := property_enable base r en in property_enabled base r) w
  = Some false.
Proof.
  intros Hwf Hw Heq. unfold result, bind.
  rewrite property_enable_run, property_enabled_run. simpl.
  rewrite field_value_after_enable by assumption.
  f_equal. unfold encoding. destruct en; rewrite ?Heq, Z.eqb_refl; reflexivity.
Qed.

Lemma property_enabled_false_on_equal_encodings_witness :
  result (let* _ := property_enable 0 (mk_reg 0x000c 11 11 0 0) true in
          property_enabled 0 (mk_reg 0x000c 11 11 0 0))
         (hw_reset {[ 0x000c := 0xffff ]}) = Some false.
Proof.
  apply (property_enabled_false_on_equal_encodings 0 (mk_reg 0x000c 11 11 0 0)
           true (hw_reset {[ 0x000c := 0xffff ]})).
  - unfold reg_wf; simpl; lia.
  - unfold reg_writeable, BIT_WRITEABLE_SHIFT; simpl; lia.
  - reflexivity.
Defined.

(** X4.  For a field in the low 16 bits nothing is lost to truncation: the
    stored word is the encoding at the position of the field together with
    the mask of the field 16 bits higher, and it fits in 32 bits. *)
Theorem property_enable_val_layout r en :
  reg_wf r -> reg_writeable r ->
  property_enable_val r en =
    Z.lor (Z.shiftl (encoding r en) (bitstart r))
          (Z.shiftl (Z.ones (bitend r - bitstart r + 1))
                    (bitstart r + BIT_WRITEABLE_SHIFT)) /\
  0 <= property_enable_val r en < 2 ^ 32.
Proof.
  intros Hwf Hw. pose proof (encoding_fits r en Hwf) as Hfit.
  pose proof Hwf as (_ & Hs & He & _).
  unfold reg_writeable, BIT_WRITEABLE_SHIFT in *.
  split.
  - apply Z.bits_inj'. intros i Hi.
    rewrite property_enable_val_testbit by assumption.
    rewrite Z.lor_spec, !Z.shiftl_spec by lia.
    rewrite Z.testbit_ones by lia.
    unfold in_field, BIT_WRITEABLE_SHIFT.
    destruct (Z.ltb_spec i 32); cbn [andb].
    + f_equal.
      destruct (Z.leb_spec (bitstart r) (i - 16)),
        (Z.leb_spec (i - 16) (bitend r)),
        (Z.leb_spec 0 (i - (bitstart r + 16))),
        (Z.ltb_spec (i - (bitstart r + 16)) (bitend r - bitstart r + 1));
        cbn [andb]; try reflexivity; lia.
    + rewrite (testbit_small (encoding r en) (bitend r - bitstart r + 1))
        by lia.
      destruct (Z.leb_spec 0 (i - (bitstart r + 16))),
        (Z.ltb_spec (i - (bitstart r + 16)) (bitend r - bitstart r + 1));
        cbn [andb orb]; try reflexivity; lia.
  - unfold property_enable_val, u32.
    assert (0 < 2 ^ 32) by lia.
    split.
    + apply Z.lor_nonneg. split; apply Z.mod_pos_bound; lia.
    + apply Z.log2_lt_cancel. rewrite Z.log2_pow2 by lia.
      set (a := Z.shiftl _ _ mod _). set (b := Z.shiftl _ _ mod _).
      assert (0 <= a < 2 ^ 32) by (apply Z.mod_pos_bound; lia).
      assert (0 <= b < 2 ^ 32) by (apply Z.mod_pos_bound; lia).
      rewrite Z.log2_lor by lia.
      apply Z.max_lub_lt.
      * destruct (Z.eq_dec a 0) as [->|]; [cbn; lia|].
        apply Z.log2_lt_pow2; lia.
      * destruct (Z.eq_dec b 0) as [->|]; [cbn; lia|].
        apply Z.log2_lt_pow2; lia.
Qed.

Lemma property_enable_val_layout_witness :
  property_enable_val (mk_reg 0x0000 8 0 0x052 0x1d1) false = 0x01ff0052.
Proof.
  rewrite (proj1 (property_enable_val_layout (mk_reg 0x0000 8 0 0x052 0x1d1)
                    false
                    ltac:(unfold reg_wf; simpl; lia)
                    ltac:(unfold reg_writeable, BIT_WRITEABLE_SHIFT; simpl; lia))).
  reflexivity.
Defined.

End FieldWrites.

(** ** Effects of the operations on the registers *)

Section OperationEffects.

Import Tables.

Lemma store_word_idem g addr val :
  store_word (store_word g addr val) addr val = store_word g addr val.
Proof.
  unfold store_word. rewrite reg_content_insert_eq, insert_insert_eq.
  f_equal. apply Z.bits_inj'. intros i Hi.
  rewrite !masked_store_testbit by assumption.
  destruct (Z.testbit val (i + BIT_WRITEABLE_SHIFT)); reflexivity.
Qed.

Lemma masked_store_pair_idem orig a b :
  masked_store (masked_store (masked_store (masked_store orig a) b) a) b
  = masked_store (masked_store orig a) b.
Proof.
  apply Z.bits_inj'. intros i Hi.
  rewrite !masked_store_testbit by assumption.
  destruct (Z.testbit b (i + BIT_WRITEABLE_SHIFT)),
    (Z.testbit a (i + BIT_WRITEABLE_SHIFT)); reflexivity.
Qed.

Lemma reg_content_insert g a v k :
  reg_content (<[a := v]> g) k = if decide (a = k) then v else reg_content g k.
Proof. unfold reg_content. rewrite lookup_insert. case_decide; reflexivity. Qed.

Lemma store_word_pair_idem g a va b vb :
  store_word (store_word (store_word (store_word g a va) b vb) a va) b vb
  = store_word (store_word g a va) b vb.
Proof.
  unfold store_word. apply map_eq. intros k.
  rewrite !lookup_insert, !reg_content_insert.
  repeat case_decide; subst; try congruence; try reflexivity;
    f_equal; apply Z.bits_inj'; intros i Hi;
    rewrite !masked_store_testbit by assumption;
    repeat match goal with
    | |- context [if Z.testbit ?v ?j then _ else _] => destruct (Z.testbit v j)
    end; reflexivity.
Qed.

(** A store to a field leaves every bit outside the field as it was. *)
Lemma store_word_same_bit g base r en addr i :
  reg_wf r -> reg_writeable r -> 0 <= i ->
  in_footprint base r addr i = false ->
  same_bit g (store_word g (base + offset r) (property_enable_val r en)) addr i.
Proof.
  intros Hwf Hw Hi Hout. unfold same_bit, store_word, in_footprint in *.
  destruct (Z.eqb_spec addr (base + offset r)) as [->|Hne].
  - cbn [andb] in Hout. rewrite reg_content_insert_eq.
    rewrite masked_store_field by assumption. rewrite Hout. reflexivity.
  - rewrite reg_content_insert_ne by congruence. reflexivity.
Qed.

(** The registers after each operation, as stores. *)
Lemma power_on_grf base c cfg p w :
  grf <$> state_after (rockchip_usb2phy_power_on (probed base c cfg) p) w =
  Some (store_word (grf w) (base + offset (phy_sus (port_cfgs cfg (id p))))
          (property_enable_val (phy_sus (port_cfgs cfg (id p))) false)).
Proof. unfold state_after. rewrite power_on_run. reflexivity. Qed.

Lemma power_off_grf base c cfg p w :
  grf <$> state_after (rockchip_usb2phy_power_off (probed base c cfg) p) w =
  Some (store_word (grf w) (base + offset (phy_sus (port_cfgs cfg (id p))))
          (property_enable_val (phy_sus (port_cfgs cfg (id p))) true)).
Proof. unfold state_after. rewrite power_off_run. reflexivity. Qed.

Lemma init_ok_run base c cfg p w :
  clk_enable_ret c = 0 \/ clk_enable_ret c = - ENOSYS ->
  exists t,
    rockchip_usb2phy_init (probed base c cfg) p w =
    Some (0, {| grf :=
                  store_word
                    (store_word (grf w)
                       (base + offset (bvalid_det_clr (port_cfgs cfg (id p))))
                       (property_enable_val (bvalid_det_clr (port_cfgs cfg (id p))) true))
                    (base + offset (bvalid_det_en (port_cfgs cfg (id p))))
                    (property_enable_val (bvalid_det_en (port_cfgs cfg (id p))) true);
                trace := t |}).
Proof.
  intros H. unfold rockchip_usb2phy_init, bind. cbn.
  assert (negb (clk_enable_ret c =? 0) && negb (clk_enable_ret c =? - ENOSYS)
          = false) as ->.
  { destruct H as [-> | ->]; reflexivity. }
  destruct (id p); cbn; eexists; reflexivity.
Qed.

Lemma clk_enable_on_run base c cfg w :
  field_value (grf w) base (clkout_ctl cfg) <> disable (clkout_ctl cfg) ->
  rockchip_usb2phy_clk_enable (probed base c cfg) w =
  Some (0, {| grf := grf w;
              trace := trace w ++
                [EvPropertyEnabled (clkout_ctl cfg);
                 EvReadl (base + offset (clkout_ctl cfg))] |}).
Proof.
  intros Hon. unfold rockchip_usb2phy_clk_enable, bind.
  cbn [phy_cfg probed reg_base]. rewrite property_enabled_run.
  apply Z.eqb_neq in Hon. rewrite Hon. cbn. rewrite <- !app_assoc. reflexivity.
Qed.

Lemma clk_enable_off_run base c cfg w :
  field_value (grf w) base (clkout_ctl cfg) = disable (clkout_ctl cfg) ->
  rockchip_usb2phy_clk_enable (probed base c cfg) w =
  Some (0, {| grf := store_word (grf w) (base + offset (clkout_ctl cfg))
                       (property_enable_val (clkout_ctl cfg) true);
              trace := trace w ++
                [EvPropertyEnabled (clkout_ctl cfg);
                 EvReadl (base + offset (clkout_ctl cfg));
                 EvPropertyEnable (clkout_ctl cfg) true;
                 EvWritel (property_enable_val (clkout_ctl cfg) true)
                          (base + offset (clkout_ctl cfg));
                 EvUdelay 1300] |}).
Proof.
  intros Hoff. unfold rockchip_usb2phy_clk_enable, bind.
  cbn [phy_cfg probed reg_base]. rewrite property_enabled_run.
  apply Z.eqb_eq in Hoff. rewrite Hoff. cbn. rewrite <- !app_assoc. reflexivity.
Qed.

Lemma clk_disable_full_run base c cfg w :
  rockchip_usb2phy_clk_disable (probed base c cfg) w =
  Some (0, {| grf := store_word (grf w) (base + offset (clkout_ctl cfg))
                       (property_enable_val (clkout_ctl cfg) false);
              trace := trace w ++
                [EvPropertyEnable (clkout_ctl cfg) false;
                 EvWritel (property_enable_val (clkout_ctl cfg) false)
                          (base + offset (clkout_ctl cfg))] |}).
Proof. cbn. rewrite <- !app_assoc. reflexivity. Qed.

Lemma field_value_store_word base r en g :
  reg_wf r -> reg_writeable r ->
  field_value (store_word g (base + offset r) (property_enable_val r en)) base r
  = encoding r en.
Proof. apply field_value_after_enable. Qed.

(** X5.  Enabling the clock output is idempotent: after
    [rockchip_usb2phy_clk_enable] the control field reads as enabled, and a
    second call only reads the register: no store, no delay, the registers
    stay as they are. *)
Theorem clk_enable_idempotent base c cfg w :
  let priv := probed base c cfg in
  let r := clkout_ctl cfg in
  reg_wf r -> reg_writeable r -> enable r <> disable r ->
  exists w1,
    rockchip_usb2phy_clk_enable priv w = Some (0, w1) /\
    result (property_enabled base r) w1 = Some true /\
    rockchip_usb2phy_clk_enable priv w1 =
      Some (0, {| grf := grf w1;
                  trace := trace w1 ++
                    [EvPropertyEnabled r; EvReadl (base + offset r)] |}).
Proof.
  intros priv r Hwf Hw Hne. subst priv r.
  destruct (Z.eq_dec (field_value (grf w) base (clkout_ctl cfg))
              (disable (clkout_ctl cfg))) as [Hoff|Hon].
  - rewrite (clk_enable_off_run base c cfg w Hoff). eexists.
    split; [reflexivity|].
    assert (field_value
              (store_word (grf w) (base + offset (clkout_ctl cfg))
                 (property_enable_val (clkout_ctl cfg) true)) base (clkout_ctl cfg)
            <> disable (clkout_ctl cfg)) as Hnow.
    { rewrite field_value_store_word by assumption. exact Hne. }
    split.
    + unfold result. rewrite property_enabled_run. cbn.
      apply Z.eqb_neq in Hnow. rewrite Hnow. reflexivity.
    + apply clk_enable_on_run. exact Hnow.
  - rewrite (clk_enable_on_run base c cfg w Hon). eexists.
    split; [reflexivity|]. split.
    + unfold result. rewrite property_enabled_run. cbn.
      apply Z.eqb_neq in Hon. rewrite Hon. reflexivity.
    + apply clk_enable_on_run. exact Hon.
Qed.

Lemma clk_enable_idempotent_witness :
  let priv := probed 0 (mk_clk 0 0) (nth_cfg rk3568_phy_cfgs 0) in
  let r := mk_reg 0x0008 4 4 1 0 in
  exists w1,
    rockchip_usb2phy_clk_enable priv (hw_reset {[ 0x0008 := 0x10 ]}) = Some (0, w1) /\
    result (property_enabled 0 r) w1 = Some true /\
    rockchip_usb2phy_clk_enable priv w1 =
      Some (0, {| grf := grf w1;
                  trace := trace w1 ++
                    [EvPropertyEnabled r; EvReadl (0 + offset r)] |}).
Proof.
  intros priv r.
  apply (clk_enable_idempotent 0 (mk_clk 0 0) (nth_cfg rk3568_phy_cfgs 0)
           (hw_reset {[ 0x0008 := 0x10 ]})).
  - unfold reg_wf; simpl; lia.
  - unfold reg_writeable, BIT_WRITEABLE_SHIFT; simpl; lia.
  - simpl; lia.
Defined.

(** X6.  For a clock-output control field that satisfies the invariant
    and lies in the low 16 bits: disabling the clock output stores the
    disabled encoding, without reading and without delay, and leaves the
    field at that encoding; a following enable finds the output off, stores
    the enabled encoding and then waits 1300 microseconds, leaving the field
    at its enabled encoding. *)
Theorem clk_disable_then_enable base c cfg w :
  let priv := probed base c cfg in
  let r := clkout_ctl cfg in
  reg_wf r -> reg_writeable r ->
  exists w1 w2,
    rockchip_usb2phy_clk_disable priv w = Some (0, w1) /\
    events_of (rockchip_usb2phy_clk_disable priv) w =
      [EvPropertyEnable r false;
       EvWritel (property_enable_val r false) (base + offset r)] /\
    field_value (grf w1) base r = disable r /\
    rockchip_usb2phy_clk_enable priv w1 = Some (0, w2) /\
    events_of (rockchip_usb2phy_clk_enable priv) w1 =
      [EvPropertyEnabled r; EvReadl (base + offset r);
       EvPropertyEnable r true;
       EvWritel (property_enable_val r true) (base + offset r);
       EvUdelay 1300] /\
    field_value (grf w2) base r = enable r.
Proof.
  intros priv r Hwf Hw. subst priv r.
  pose proof (clk_disable_full_run base c cfg w) as Hdis.
  do 2 eexists. split; [exact Hdis|].
  split; [eapply events_of_appended; [exact Hdis | reflexivity]|].
  assert (field_value
            (store_word (grf w) (base + offset (clkout_ctl cfg))
               (property_enable_val (clkout_ctl cfg) false)) base (clkout_ctl cfg)
          = disable (clkout_ctl cfg)) as Hoff
    by (apply field_value_store_word; assumption).
  split; [exact Hoff|].
  pose proof (clk_enable_off_run base c cfg
                {| grf := store_word (grf w) (base + offset (clkout_ctl cfg))
                            (property_enable_val (clkout_ctl cfg) false);
                   trace := trace w ++
                     [EvPropertyEnable (clkout_ctl cfg) false;
                      EvWritel (property_enable_val (clkout_ctl cfg) false)
                               (base + offset (clkout_ctl cfg))] |}
                Hoff) as Hen.
  split; [exact Hen|].
  split; [eapply events_of_appended; [exact Hen | reflexivity]|].
  cbn [grf]. apply (field_value_store_word base (clkout_ctl cfg) true);
    assumption.
Qed.

Lemma clk_disable_then_enable_witness :
  let priv := probed 0 (mk_clk 0 0) (nth_cfg rk3399_usb2phy_cfgs 0) in
  let r := mk_reg 0xe450 4 4 1 0 in
  exists w1 w2,
    rockchip_usb2phy_clk_disable priv (hw_reset ∅) = Some (0, w1) /\
    events_of (rockchip_usb2phy_clk_disable priv) (hw_reset ∅) =
      [EvPropertyEnable r false;
       EvWritel (property_enable_val r false) (0 + offset r)] /\
    field_value (grf w1) 0 r = disable r /\
    rockchip_usb2phy_clk_enable priv w1 = Some (0, w2) /\
    events_of (rockchip_usb2phy_clk_enable priv) w1 =
      [EvPropertyEnabled r; EvReadl (0 + offset r);
       EvPropertyEnable r true;
       EvWritel (property_enable_val r true) (0 + offset r);
       EvUdelay 1300] /\
    field_value (grf w2) 0 r = enable r.
Proof.
  intros priv r.
  apply (clk_disable_then_enable 0 (mk_clk 0 0) (nth_cfg rk3399_usb2phy_cfgs 0)
           (hw_reset ∅)).
  - unfold reg_wf; simpl; lia.
  - unfold reg_writeable, BIT_WRITEABLE_SHIFT; simpl; lia.
Defined.

(** X7.  For a port whose suspend field satisfies the invariant and lies
    in the low 16 bits, and from any register state: [power_on] returns 0
    and leaves the suspend field at its disabled encoding, and ends with the
    2000 microsecond wait, after the store; [power_off] returns 0 and leaves
    the field at its enabled encoding. *)
Theorem power_on_off_suspend_field base c cfg p w :
  let priv := probed base c cfg in
  let r := phy_sus (port_cfgs cfg (id p)) in
  reg_wf r -> reg_writeable r ->
  (exists w1,
     rockchip_usb2phy_power_on priv p w = Some (0, w1) /\
     field_value (grf w1) base r = disable r /\
     events_of (rockchip_usb2phy_power_on priv p) w =
       [EvPropertyEnable r false;
        EvWritel (property_enable_val r false) (base + offset r);
        EvUdelay 2000]) /\
  (exists w2,
     rockchip_usb2phy_power_off priv p w = Some (0, w2) /\
     field_value (grf w2) base r = enable r).
Proof.
  intros priv r Hwf Hw. subst priv. split.
  - pose proof (power_on_run base c cfg p w) as Hrun. cbv zeta in Hrun.
    eexists. split; [exact Hrun|]. split.
    + cbn [grf]. apply (field_value_after_enable base r false); assumption.
    + eapply events_of_appended; [exact Hrun | reflexivity].
  - pose proof (power_off_run base c cfg p w) as Hrun. cbv zeta in Hrun.
    eexists. split; [exact Hrun|].
    cbn [grf]. apply (field_value_after_enable base r true); assumption.
Qed.

Lemma power_on_off_suspend_field_witness :
  let priv := probed 0 (mk_clk 0 0) (nth_cfg rk3399_usb2phy_cfgs 1) in
  let p := mk_phy "host-port" USB2PHY_PORT_HOST in
  let r := mk_reg 0xe468 1 0 0x2 0x1 in
  (exists w1,
     rockchip_usb2phy_power_on priv p (hw_reset ∅) = Some (0, w1) /\
     field_value (grf w1) 0 r = disable r /\
     events_of (rockchip_usb2phy_power_on priv p) (hw_reset ∅) =
       [EvPropertyEnable r false;
        EvWritel (property_enable_val r false) (0 + offset r);
        EvUdelay 2000]) /\
  (exists w2,
     rockchip_usb2phy_power_off priv p (hw_reset ∅) = Some (0, w2) /\
     field_value (grf w2) 0 r = enable r).
Proof.
  intros priv p r.
  apply (power_on_off_suspend_field 0 (mk_clk 0 0)
           (nth_cfg rk3399_usb2phy_cfgs 1) p (hw_reset ∅)).
  - unfold reg_wf; simpl; lia.
  - unfold reg_writeable, BIT_WRITEABLE_SHIFT; simpl; lia.
Defined.

(** X8.  Repeating an operation does nothing more to the registers:
    [power_on] twice, [power_off] twice, clock disable twice and, when the
    clock can be enabled, [init] twice leave the registers as one call
    does. *)
Theorem operations_idempotent_on_registers base c cfg p w :
  let priv := probed base c cfg in
  grf <$> state_after (let* _ := rockchip_usb2phy_power_on priv p in
                       rockchip_usb2phy_power_on priv p) w
    = grf <$> state_after (rockchip_usb2phy_power_on priv p) w /\
  grf <$> state_after (let* _ := rockchip_usb2phy_power_off priv p in
                       rockchip_usb2phy_power_off priv p) w
    = grf <$> state_after (rockchip_usb2phy_power_off priv p) w /\
  grf <$> state_after (let* _ := rockchip_usb2phy_clk_disable priv in
                       rockchip_usb2phy_clk_disable priv) w
    = grf <$> state_after (rockchip_usb2phy_clk_disable priv) w /\
  (clk_enable_ret c = 0 \/ clk_enable_ret c = - ENOSYS ->
   grf <$> state_after (let* _ := rockchip_usb2phy_init priv p in
                        rockchip_usb2phy_init priv p) w
     = grf <$> state_after (rockchip_usb2phy_init priv p) w).
Proof.
  intros priv. subst priv. repeat split.
  - unfold state_after, bind. rewrite power_on_run. cbv beta iota zeta.
    rewrite power_on_run. cbn. f_equal. apply store_word_idem.
  - unfold state_after, bind. rewrite power_off_run. cbv beta iota zeta.
    rewrite power_off_run. cbn. f_equal. apply store_word_idem.
  - unfold state_after, bind. rewrite clk_disable_full_run. cbv beta iota.
    rewrite clk_disable_full_run. cbn. f_equal. apply store_word_idem.
  - intros Hok. unfold state_after, bind.
    destruct (init_ok_run base c cfg p w Hok) as [t ->]. cbv beta iota.
    destruct (init_ok_run base c cfg p
                {| grf := store_word
                            (store_word (grf w)
                               (base + offset (bvalid_det_clr (port_cfgs cfg (id p))))
                               (property_enable_val (bvalid_det_clr (port_cfgs cfg (id p))) true))
                            (base + offset (bvalid_det_en (port_cfgs cfg (id p))))
                            (property_enable_val (bvalid_det_en (port_cfgs cfg (id p))) true);
                   trace := t |} Hok) as [t' ->].
    cbn. f_equal. apply store_word_pair_idem.
Qed.

Lemma operations_idempotent_on_registers_witness :
  let priv := probed 0 (mk_clk (- ENOSYS) 0) (nth_cfg rk3568_phy_cfgs 0) in
  let p := mk_phy "otg-port" USB2PHY_PORT_OTG in
  grf <$> state_after (let* _ := rockchip_usb2phy_init priv p in
                       rockchip_usb2phy_init priv p) (hw_reset ∅)
    = grf <$> state_after (rockchip_usb2phy_init priv p) (hw_reset ∅).
Proof.
  intros priv p.
  apply (operations_idempotent_on_registers 0 (mk_clk (- ENOSYS) 0)
           (nth_cfg rk3568_phy_cfgs 0) p (hw_reset ∅)).
  right. reflexivity.
Defined.

(** The value of a field depends only on the bits of the field. *)
Lemma field_value_ext g g' base r :
  reg_wf r ->
  (forall i, 0 <= i -> in_field r i = true ->
             same_bit g g' (base + offset r) i) ->
  field_value g' base r = field_value g base r.
Proof.
  intros Hwf Hsame. pose proof Hwf as (_ & Hs & He & _).
  unfold field_value. apply Z.bits_inj'. intros j Hj.
  rewrite !Z.shiftr_spec, !Z.land_spec by lia.
  rewrite GENMASK_testbit by (unfold BITS_PER_LONG; lia).
  unfold u32. rewrite !Z.testbit_mod_pow2 by lia.
  destruct ((bitstart r <=? j + bitstart r) && (j + bitstart r <=? bitend r))
    eqn:Hin.
  - rewrite (Hsame (j + bitstart r)) by (try lia; exact Hin). reflexivity.
  - cbn [andb]. rewrite !andb_false_r. reflexivity.
Qed.

(** X9.  The port operations change nothing but their fields: [power_on]
    and [power_off] leave every bit outside the suspend field of the port
    as it was, and [init], whether it fails or not, every bit outside the
    two detect fields of the port. *)
Theorem port_operations_footprint base c cfg p w addr i :
  let priv := probed base c cfg in
  let pc := port_cfgs cfg (id p) in
  reg_wf (phy_sus pc) -> reg_writeable (phy_sus pc) ->
  reg_wf (bvalid_det_clr pc) -> reg_writeable (bvalid_det_clr pc) ->
  reg_wf (bvalid_det_en pc) -> reg_writeable (bvalid_det_en pc) ->
  0 <= i ->
  (in_footprint base (phy_sus pc) addr i = false ->
   forall w',
     state_after (rockchip_usb2phy_power_on priv p) w = Some w' \/
     state_after (rockchip_usb2phy_power_off priv p) w = Some w' ->
     same_bit (grf w) (grf w') addr i) /\
  (in_footprint base (bvalid_det_clr pc) addr i = false ->
   in_footprint base (bvalid_det_en pc) addr i = false ->
   forall w',
     state_after (rockchip_usb2phy_init priv p) w = Some w' ->
     same_bit (grf w) (grf w') addr i).
Proof.
  intros priv pc Hwfs Hws Hwfc Hwc Hwfe Hwe Hi. subst priv pc. split.
  - intros Hout w' [Hrun|Hrun]; unfold state_after in Hrun.
    + rewrite power_on_run in Hrun. cbn in Hrun. injection Hrun as <-.
      cbn [grf]. apply store_word_same_bit; assumption.
    + rewrite power_off_run in Hrun. cbn in Hrun. injection Hrun as <-.
      cbn [grf]. apply store_word_same_bit; assumption.
  - intros Hclr Hen w' Hrun. unfold state_after in Hrun.
    destruct (decide (clk_enable_ret c = 0 \/ clk_enable_ret c = - ENOSYS))
      as [Hok|Herr].
    + destruct (init_ok_run base c cfg p w Hok) as [t Hinit].
      rewrite Hinit in Hrun. cbn in Hrun. injection Hrun as <-. cbn [grf].
      unfold same_bit.
      rewrite (store_word_same_bit _ base _ true addr i Hwfe Hwe Hi Hen).
      apply store_word_same_bit; assumption.
    + assert (clk_enable_ret c <> 0 /\ clk_enable_ret c <> - ENOSYS)
        as [H0 H1] by lia.
      rewrite (init_run_error base c cfg p w H0 H1) in Hrun.
      cbn in Hrun. injection Hrun as <-. reflexivity.
Qed.

Lemma port_operations_footprint_witness :
  let priv := probed 0 (mk_clk 0 0) (nth_cfg rk3568_phy_cfgs 0) in
  let p := mk_phy "otg-port" USB2PHY_PORT_OTG in
  let w := hw_reset {[ 0x0080 := 0xffff ]} in
  same_bit (grf w)
    (grf (default w (state_after (rockchip_usb2phy_init priv p) w)))
    0x0080 0.
Proof.
  intros priv p w.
  apply (proj2 (port_operations_footprint 0 (mk_clk 0 0)
                  (nth_cfg rk3568_phy_cfgs 0) p w 0x0080 0
                  ltac:(unfold reg_wf; simpl; lia)
                  ltac:(unfold reg_writeable, BIT_WRITEABLE_SHIFT; simpl; lia)
                  ltac:(unfold reg_wf; simpl; lia)
                  ltac:(unfold reg_writeable, BIT_WRITEABLE_SHIFT; simpl; lia)
                  ltac:(unfold reg_wf; simpl; lia)
                  ltac:(unfold reg_writeable, BIT_WRITEABLE_SHIFT; simpl; lia)
                  ltac:(lia)));
    reflexivity.
Defined.

(** X10.  The clock operations change nothing but the clock-output control
    field: enable and disable leave every other bit of every register as it
    was. *)
Theorem clock_operations_footprint base c cfg w addr i :
  let priv := probed base c cfg in
  let r := clkout_ctl cfg in
  reg_wf r -> reg_writeable r -> 0 <= i ->
  in_footprint base r addr i = false ->
  forall w',
    state_after (rockchip_usb2phy_clk_enable priv) w = Some w' \/
    state_after (rockchip_usb2phy_clk_disable priv) w = Some w' ->
    same_bit (grf w) (grf w') addr i.
Proof.
  intros priv r Hwf Hw Hi Hout w' [Hrun|Hrun]; subst priv r;
    unfold state_after in Hrun.
  - destruct (Z.eq_dec (field_value (grf w) base (clkout_ctl cfg))
                (disable (clkout_ctl cfg))) as [Hoff|Hon].
    + rewrite (clk_enable_off_run base c cfg w Hoff) in Hrun.
      cbn in Hrun. injection Hrun as <-. cbn [grf].
      apply store_word_same_bit; assumption.
    + rewrite (clk_enable_on_run base c cfg w Hon) in Hrun.
      cbn in Hrun. injection Hrun as <-. reflexivity.
  - rewrite clk_disable_full_run in Hrun. cbn in Hrun. injection Hrun as <-.
    cbn [grf]. apply store_word_same_bit; assumption.
Qed.

Lemma clock_operations_footprint_witness :
  let priv := probed 0 (mk_clk 0 0) (nth_cfg rk3568_phy_cfgs 0) in
  let w := hw_reset {[ 0x0008 := 0xffff ]} in
  same_bit (grf w)
    (grf (default w (state_after (rockchip_usb2phy_clk_enable priv) w)))
    0x0008 3.
Proof.
  intros priv w.
  apply (clock_operations_footprint 0 (mk_clk 0 0)
           (nth_cfg rk3568_phy_cfgs 0) w 0x0008 3).
  - unfold reg_wf; simpl; lia.
  - unfold reg_writeable, BIT_WRITEABLE_SHIFT; simpl; lia.
  - lia.
  - reflexivity.
  - left. reflexivity.
Defined.

(** X11.  A successful [init] leaves the detect-enable field of the port
    at its enabled encoding, and the detect-clear field too when the two
    fields share no bit. *)
Theorem init_sets_detect_fields base c cfg p w :
  let priv := probed base c cfg in
  let pc := port_cfgs cfg (id p) in
  reg_wf (bvalid_det_clr pc) -> reg_writeable (bvalid_det_clr pc) ->
  reg_wf (bvalid_det_en pc) -> reg_writeable (bvalid_det_en pc) ->
  clk_enable_ret c = 0 \/ clk_enable_ret c = - ENOSYS ->
  exists w',
    rockchip_usb2phy_init priv p w = Some (0, w') /\
    field_value (grf w') base (bvalid_det_en pc) = enable (bvalid_det_en pc) /\
    (fields_apart (bvalid_det_clr pc) (bvalid_det_en pc) ->
     field_value (grf w') base (bvalid_det_clr pc) = enable (bvalid_det_clr pc)).
Proof.
  intros priv pc Hwfc Hwc Hwfe Hwe Hok. subst priv pc.
  destruct (init_ok_run base c cfg p w Hok) as [t Hinit].
  eexists. split; [exact Hinit|]. cbn [grf]. split.
  - apply (field_value_store_word base _ true); assumption.
  - intros Hapart.
    rewrite (field_value_ext
               (store_word (grf w)
                  (base + offset (bvalid_det_clr (port_cfgs cfg (id p))))
                  (property_enable_val (bvalid_det_clr (port_cfgs cfg (id p))) true))).
    + apply (field_value_store_word base _ true); assumption.
    + assumption.
    + intros i Hi Hin. apply store_word_same_bit; try assumption.
      unfold in_footprint, in_field in *. unfold fields_apart in Hapart.
      destruct (Z.eqb_spec (base + offset (bvalid_det_clr (port_cfgs cfg (id p))))
                  (base + offset (bvalid_det_en (port_cfgs cfg (id p)))))
        as [Heq|Hne]; [|reflexivity].
      cbn [andb]. apply andb_prop in Hin. destruct Hin as [Hlo Hhi].
      apply Z.leb_le in Hlo, Hhi.
      destruct (Z.leb_spec (bitstart (bvalid_det_en (port_cfgs cfg (id p)))) i),
        (Z.leb_spec i (bitend (bvalid_det_en (port_cfgs cfg (id p)))));
        cbn [andb]; try reflexivity; lia.
Qed.

Lemma init_sets_detect_fields_witness :
  let priv := probed 0 (mk_clk 0 0) (nth_cfg rk3568_phy_cfgs 0) in
  let p := mk_phy "otg-port" USB2PHY_PORT_OTG in
  exists w',
    rockchip_usb2phy_init priv p (hw_reset ∅) = Some (0, w') /\
    field_value (grf w') 0 (mk_reg 0x0080 2 2 0 1) = 1 /\
    field_value (grf w') 0 (mk_reg 0x0088 2 2 0 1) = 1.
Proof.
  intros priv p.
  destruct (init_sets_detect_fields 0 (mk_clk 0 0) (nth_cfg rk3568_phy_cfgs 0)
              p (hw_reset ∅)
              ltac:(unfold reg_wf; simpl; lia)
              ltac:(unfold reg_writeable, BIT_WRITEABLE_SHIFT; simpl; lia)
              ltac:(unfold reg_wf; simpl; lia)
              ltac:(unfold reg_writeable, BIT_WRITEABLE_SHIFT; simpl; lia)
              ltac:(left; reflexivity)) as (w' & Hrun & Hen & Hclr).
  exists w'. split; [exact Hrun|]. split; [exact Hen|].
  apply Hclr. unfold fields_apart. simpl. lia.
Defined.

End OperationEffects.

(** ** The lookup on arbitrary arrays, and the tables *)

Section Arrays.

Import Tables.

Implicit Types (l tbl : list rockchip_usb2phy_cfg) (c y z : rockchip_usb2phy_cfg).

(** An entry returned by the loop is the first match from the start
    index on. *)
Lemma find_phy_cfg_first fuel : forall l r i0 j c,
  find_phy_cfg fuel l r i0 = Some (Some (j, c)) ->
  forall k y, (i0 <= k < j)%nat -> l !! k = Some y -> reg y <> r.
Proof.
  induction fuel as [|fuel IH]; intros l r i0 j c H k y Hk Hy; [discriminate|].
  cbn [find_phy_cfg] in H.
  destruct (l !! i0) as [c0|] eqn:E0; [|discriminate].
  destruct (Z.eqb_spec (reg c0) r) as [Heq|Hne].
  - injection H as <- <-. lia.
  - destruct (l !! S i0) as [c1|] eqn:E1; [|discriminate].
    destruct (Z.eqb_spec (reg c1) 0) as [Hz|Hnz]; cbn [negb] in H;
      [discriminate|].
    destruct (decide (k = i0)) as [->|Hk'].
    + rewrite E0 in Hy. injection Hy as <-. assumption.
    + apply (IH l r (S i0) j c H k y); [lia | assumption].
Qed.

(** The loop gives up only on a zero [reg] after the start index, with no
    match before it. *)
Lemma find_phy_cfg_not_found fuel : forall l r i0,
  find_phy_cfg fuel l r i0 = Some None ->
  exists n z, (i0 < n)%nat /\ l !! n = Some z /\ reg z = 0 /\
    forall k y, (i0 <= k < n)%nat -> l !! k = Some y -> reg y <> r.
Proof.
  induction fuel as [|fuel IH]; intros l r i0 H; [discriminate|].
  cbn [find_phy_cfg] in H.
  destruct (l !! i0) as [c0|] eqn:E0; [|discriminate].
  destruct (Z.eqb_spec (reg c0) r) as [Heq|Hne]; [discriminate|].
  destruct (l !! S i0) as [c1|] eqn:E1; [|discriminate].
  destruct (Z.eqb_spec (reg c1) 0) as [Hz|Hnz]; cbn [negb] in H.
  - exists (S i0), c1. repeat split; try assumption; try lia.
    intros k y Hk Hy. assert (k = i0) as -> by lia.
    rewrite E0 in Hy. injection Hy as <-. assumption.
  - destruct (IH l r (S i0) H) as (n & z & Hn & Hz & Hzero & Hfirst).
    exists n, z. repeat split; try assumption; try lia.
    intros k y Hk Hy. destruct (decide (k = i0)) as [->|Hk'].
    + rewrite E0 in Hy. injection Hy as <-. assumption.
    + apply (Hfirst k y); [lia | assumption].
Qed.

(** X12.  Whatever the array, a config returned by the lookup is the
    first entry whose [reg] is the requested value, and no entry between
    the first one and it has a zero [reg]; when the lookup reports no
    match, it stopped at a zero [reg] past the first entry and no entry
    before that one matches. *)
Theorem lookup_phy_cfg_sound tbl r :
  match lookup_phy_cfg tbl r with
  | Some (Some (j, c)) =>
      tbl !! j = Some c /\ reg c = r /\
      (forall k y, (k < j)%nat -> tbl !! k = Some y -> reg y <> r) /\
      (forall k y, (0 < k <= j)%nat -> tbl !! k = Some y -> reg y <> 0)
  | Some None =>
      exists n z, (0 < n)%nat /\ tbl !! n = Some z /\ reg z = 0 /\
        forall k y, (k < n)%nat -> tbl !! k = Some y -> reg y <> r
  | None => True
  end.
Proof.
  unfold lookup_phy_cfg.
  destruct (find_phy_cfg (length tbl) tbl r 0) as [[[j c]|]|] eqn:H;
    [| |exact I].
  - pose proof (find_phy_cfg_found _ _ _ _ _ _ H) as (_ & Hj & Hr & Hnz).
    pose proof (find_phy_cfg_first _ _ _ _ _ _ H) as Hfirst.
    repeat split; try assumption.
    intros k y Hk. apply Hfirst. lia.
  - destruct (find_phy_cfg_not_found _ _ _ _ H) as (n & z & Hn & Hz & Hzero & Hfirst).
    exists n, z. repeat split; try assumption.
    intros k y Hk. apply Hfirst. lia.
Qed.

(** X13.  The terminating entry is needed: on an array with no entry for
    the requested value and no zero [reg] after its first entry (an empty
    array included) the loop runs past the end of the array. *)
Theorem lookup_phy_cfg_overrun tbl r :
  (forall c, c ∈ tbl -> reg c <> r) ->
  terminated tbl = false ->
  lookup_phy_cfg tbl r = None.
Proof.
  intros Hnomatch Hterm. unfold lookup_phy_cfg.
  destruct (find_phy_cfg (length tbl) tbl r 0) as [[[j c]|]|] eqn:H;
    [| |reflexivity]; exfalso.
  - pose proof (find_phy_cfg_found _ _ _ _ _ _ H) as (_ & Hj & Hr & _).
    apply (Hnomatch c); [|assumption].
    apply list_elem_of_lookup. exists j. assumption.
  - destruct (find_phy_cfg_not_found _ _ _ _ H) as (n & z & Hn & Hz & Hzero & _).
    destruct tbl as [|c0 rest]; [discriminate|].
    cbn [terminated] in Hterm.
    destruct n as [|n]; [lia|]. cbn in Hz.
    assert (existsb (fun c => reg c =? 0) rest = true) as Hex.
    { apply existsb_exists. exists z. split.
      - apply list_elem_of_In, list_elem_of_lookup. exists n. assumption.
      - apply Z.eqb_eq. assumption. }
    congruence.
Qed.

Lemma lookup_phy_cfg_overrun_witness :
  lookup_phy_cfg [nth_cfg rk3399_usb2phy_cfgs 0; nth_cfg rk3399_usb2phy_cfgs 1]
                 0xfe8a0000 = None.
Proof.
  apply lookup_phy_cfg_overrun.
  - intros c Hc. rewrite !elem_of_cons in Hc.
    destruct Hc as [->|[->|Hc]]; [discriminate | discriminate |].
    apply elem_of_nil in Hc. contradiction.
  - reflexivity.
Defined.

(** X14.  Round trip: in a terminated table whose entries have pairwise
    distinct [reg]s, every entry is found by its own [reg], at its own
    position. *)
Theorem lookup_phy_cfg_own_reg tbl i c :
  terminated tbl = true ->
  NoDup (reg <$> table_entries tbl) ->
  table_entries tbl !! i = Some c ->
  lookup_phy_cfg tbl (reg c) = Some (Some (i, c)).
Proof.
  intros Hterm Hnodup Hi.
  rewrite (lookup_phy_cfg_resolve tbl (reg c) Hterm). f_equal.
  unfold resolve_first_match. apply list_find_Some.
  split; [assumption|]. split; [reflexivity|].
  intros j y Hj Hlt Heq.
  assert ((reg <$> table_entries tbl) !! i = Some (reg c)) as Hi'
    by (rewrite list_lookup_fmap, Hi; reflexivity).
  assert ((reg <$> table_entries tbl) !! j = Some (reg c)) as Hj'
    by (rewrite list_lookup_fmap, Hj; cbn; congruence).
  pose proof (NoDup_lookup _ _ _ _ Hnodup Hi' Hj'). lia.
Qed.

(** X19.  The tables of the three supported chips are well formed: each
    is terminated, its entries have pairwise distinct [reg]s, and every field
    the driver writes through it (clock control, suspend, detect clear and
    detect enable of both ports) satisfies the invariant and lies in the low
    16 bits. *)
Theorem tables_sound compat tbl :
  (compat, tbl) ∈ rockchip_usb2phy_ids ->
  terminated tbl = true /\
  NoDup (reg <$> table_entries tbl) /\
  forall cfg f, cfg ∈ tbl -> f ∈ written_fields cfg ->
                reg_wf f /\ reg_writeable f.
Proof.
  intros Hin. unfold rockchip_usb2phy_ids in Hin. rewrite !elem_of_cons in Hin.
  assert (forall t : list rockchip_usb2phy_cfg,
            forallb (fun cfg => forallb reg_okb (written_fields cfg)) t = true ->
            forall cfg f, cfg ∈ t -> f ∈ written_fields cfg ->
                          reg_wf f /\ reg_writeable f) as Hfields.
  { intros t Hall cfg f Hcfg Hf. apply reg_okb_sound.
    rewrite forallb_forall in Hall.
    specialize (Hall cfg (proj1 (list_elem_of_In _ _) Hcfg)).
    rewrite forallb_forall in Hall.
    apply Hall, list_elem_of_In, Hf. }
  destruct Hin as [Heq|[Heq|[Heq|Hnil]]];
    [| | |apply elem_of_nil in Hnil; contradiction];
    injection Heq as -> ->;
    (split; [reflexivity|]);
    (split; [cbn; repeat constructor; rewrite ?elem_of_cons, ?elem_of_nil;
             intuition discriminate|]);
    apply Hfields; vm_compute; reflexivity.
Qed.

Lemma tables_sound_witness :
  terminated rk3568_phy_cfgs = true /\
  NoDup (reg <$> table_entries rk3568_phy_cfgs) /\
  forall cfg f, cfg ∈ rk3568_phy_cfgs -> f ∈ written_fields cfg ->
                reg_wf f /\ reg_writeable f.
Proof.
  apply (tables_sound "rockchip,rk3568-usb2phy" rk3568_phy_cfgs).
  unfold rockchip_usb2phy_ids. rewrite !elem_of_cons. right. left. reflexivity.
Defined.

Lemma lookup_phy_cfg_sound_witness :
  match lookup_phy_cfg rk3568_phy_cfgs 0xfe8b0000 with
  | Some (Some (j, c)) =>
      rk3568_phy_cfgs !! j = Some c /\ reg c = 0xfe8b0000 /\
      (forall k y, (k < j)%nat -> rk3568_phy_cfgs !! k = Some y ->
                   reg y <> 0xfe8b0000) /\
      (forall k y, (0 < k <= j)%nat -> rk3568_phy_cfgs !! k = Some y ->
                   reg y <> 0)
  | Some None =>
      exists n z, (0 < n)%nat /\ rk3568_phy_cfgs !! n = Some z /\ reg z = 0 /\
        forall k y, (k < n)%nat -> rk3568_phy_cfgs !! k = Some y ->
                    reg y <> 0xfe8b0000
  | None => True
  end.
Proof. exact (lookup_phy_cfg_sound rk3568_phy_cfgs 0xfe8b0000). Defined.

Lemma lookup_phy_cfg_own_reg_witness :
  lookup_phy_cfg rk3588_phy_cfgs 0x8000 =
    Some (Some (2%nat, nth_cfg rk3588_phy_cfgs 2)).
Proof.
  apply (lookup_phy_cfg_own_reg rk3588_phy_cfgs 2 (nth_cfg rk3588_phy_cfgs 2)).
  - reflexivity.
  - cbn. repeat constructor; rewrite ?elem_of_cons, ?elem_of_nil;
      intuition discriminate.
  - reflexivity.
Defined.

End Arrays.

(** ** Probe: what success means, and what probe never does *)

Section ProbeOutcome.

Import Tables.

Lemma ofnode_read_u32_index_error dev index e :
  ofnode_read_u32_index dev index = inl e -> e <> 0.
Proof.
  unfold ofnode_read_u32_index.
  destruct (of_reg dev) as [cells|]; [destruct (cells !! index)|];
    intros H; inversion H; discriminate.
Qed.

(** X15.  Probe returns 0 only with a fully set-up device: the register
    base is a valid pointer, the clock was found, nothing was logged, and
    the config recorded is the first entry of the driver data whose [reg]
    is the register base read from the node. *)
Theorem probe_success_postcondition dev priv w priv' w' :
  syscon_grf dev < 2 ^ BITS_PER_LONG ->
  phy_cfg priv = None ->
  rockchip_usb2phy_probe dev priv w = Some ((0, priv'), w') ->
  IS_ERR (syscon_grf dev) = false /\
  reg_base priv' = syscon_grf dev /\
  phyclk_ret dev = 0 /\ phyclk priv' = phyclk_found dev /\
  w' = w /\
  exists tbl r j c,
    driver_data dev = Some tbl /\ probe_reg dev = Some r /\
    tbl !! j = Some c /\ reg c = r /\ phy_cfg priv' = Some c /\
    forall k y, (k < j)%nat -> tbl !! k = Some y -> reg y <> r.
Proof.
  intros Hptr Hnull Hrun. unfold rockchip_usb2phy_probe in Hrun.
  cbn [reg_base phyclk phy_cfg] in Hrun. unfold probe_reg.
  destruct (IS_ERR (syscon_grf dev)) eqn:Herr.
  { unfold ret, PTR_ERR in Hrun. injection Hrun as He _ _. lia. }
  destruct (ofnode_read_u32_index dev 0) as [e|r0] eqn:Hr0.
  { apply ofnode_read_u32_index_error in Hr0.
    unfold bind, dev_err, emit, ret in Hrun. injection Hrun as He _ _.
    contradiction. }
  destruct (if (dev_read_addr_cells dev =? 2) && (r0 =? 0)
            then ofnode_read_u32_index dev 1 else inr r0) as [e|r] eqn:Hr.
  { unfold bind, dev_err, emit, ret in Hrun. injection Hrun as He _ _.
    discriminate. }
  destruct (driver_data dev) as [tbl|] eqn:Hdd.
  2:{ unfold ret in Hrun. injection Hrun as He _ _. discriminate. }
  fold (lookup_phy_cfg tbl r) in Hrun.
  destruct (lookup_phy_cfg tbl r) as [[[j c]|]|] eqn:Hlk; [| |discriminate].
  - unfold lookup_phy_cfg in Hlk.
    pose proof (find_phy_cfg_found _ _ _ _ _ _ Hlk) as (_ & Hj & Hreg & _).
    assert (forall k y, (k < j)%nat -> tbl !! k = Some y -> reg y <> r)
      as Hfirst.
    { intros k y Hk. apply (find_phy_cfg_first _ _ _ _ _ _ Hlk). lia. }
    cbn [phy_cfg] in Hrun.
    destruct (Z.eqb_spec (phyclk_ret dev) 0) as [Hclk|Hclk]; cbn [negb] in Hrun.
    + unfold ret in Hrun. injection Hrun as <- <-.
      repeat split; try assumption; try reflexivity.
      exists tbl, r, j, c. repeat split; try assumption; try reflexivity.
      destruct ((dev_read_addr_cells dev =? 2) && (r0 =? 0)).
      * rewrite Hr. reflexivity.
      * congruence.
    + unfold bind, dev_err, emit, ret in Hrun. injection Hrun as He _ _.
      contradiction.
  - cbn [phy_cfg] in Hrun. rewrite Hnull in Hrun.
    unfold bind, dev_err, emit, ret in Hrun. injection Hrun as He _ _.
    discriminate.
Qed.

Lemma probe_success_postcondition_witness :
  let dev := mk_udevice 0xfdc50000 (Some [0; 0xfe8b0000]) 2
               (Some rk3568_phy_cfgs) 0 (mk_clk 0 0) in
  exists tbl r j c,
    driver_data dev = Some tbl /\ probe_reg dev = Some r /\
    tbl !! j = Some c /\ reg c = r /\
    Some c = Some (nth_cfg rk3568_phy_cfgs 1) /\
    forall k y, (k < j)%nat -> tbl !! k = Some y -> reg y <> r.
Proof.
  intros dev.
  destruct (probe_success_postcondition dev priv_auto (hw_reset ∅)
              (probed 0xfdc50000 (mk_clk 0 0) (nth_cfg rk3568_phy_cfgs 1))
              (hw_reset ∅)
              ltac:(unfold BITS_PER_LONG; simpl; lia) eq_refl eq_refl)
    as (_ & _ & _ & _ & _ & tbl & r & j & c & H1 & H2 & H3 & H4 & H5 & H6).
  exists tbl, r, j, c. cbn [phy_cfg probed] in H5.
  repeat split; try assumption. symmetry. exact H5.
Defined.

(** X16.  Probe never touches the registers: whatever it returns, the
    register file is as before, and all it adds to the trace is at most one
    logged error, and none when it returns 0 from a valid register base. *)
Theorem probe_leaves_registers dev priv w e priv' w' :
  rockchip_usb2phy_probe dev priv w = Some ((e, priv'), w') ->
  grf w' = grf w /\
  exists evs,
    trace w' = trace w ++ evs /\ (length evs <= 1)%nat /\
    forallb is_dev_err evs = true /\
    (IS_ERR (syscon_grf dev) = false -> e = 0 -> evs = []).
Proof.
  intros Hrun. unfold rockchip_usb2phy_probe in Hrun.
  cbn [reg_base phyclk phy_cfg] in Hrun.
  assert (forall (x : Z * rockchip_usb2phy) msg,
            x.1 <> 0 ->
            (let* _ := dev_err msg in ret x) w = Some ((e, priv'), w') ->
            grf w' = grf w /\
            exists evs,
              trace w' = trace w ++ evs /\ (length evs <= 1)%nat /\
              forallb is_dev_err evs = true /\
              (IS_ERR (syscon_grf dev) = false -> e = 0 -> evs = [])) as Hlog.
  { intros x msg Hx H. unfold bind, dev_err, emit, ret in H.
    injection H as Hx' <-. split; [reflexivity|].
    exists [EvDevErr msg]. cbn. repeat split; try lia.
    intros _ He. rewrite Hx' in Hx. cbn in Hx. contradiction. }
  assert (forall (x : Z * rockchip_usb2phy),
            ret x w = Some ((e, priv'), w') ->
            grf w' = grf w /\
            exists evs,
              trace w' = trace w ++ evs /\ (length evs <= 1)%nat /\
              forallb is_dev_err evs = true /\
              (IS_ERR (syscon_grf dev) = false -> e = 0 -> evs = [])) as Hsilent.
  { intros x H. unfold ret in H. injection H as _ <-.
    split; [reflexivity|]. exists []. rewrite app_nil_r. cbn.
    repeat split; try lia. }
  destruct (IS_ERR (syscon_grf dev)) eqn:Herr.
  { apply (Hsilent _ Hrun). }
  destruct (ofnode_read_u32_index dev 0) as [e0|r0] eqn:Hr0.
  { apply (Hlog (e0, _) _ (ofnode_read_u32_index_error _ _ _ Hr0) Hrun). }
  destruct (if (dev_read_addr_cells dev =? 2) && (r0 =? 0)
            then ofnode_read_u32_index dev 1 else inr r0) as [e1|r].
  { apply (Hlog (- EINVAL, _) _ ltac:(discriminate) Hrun). }
  destruct (driver_data dev) as [tbl|].
  2:{ apply (Hsilent _ Hrun). }
  destruct (find_phy_cfg (length tbl) tbl r 0) as [found|]; [|discriminate].
  match type of Hrun with
  | context [phy_cfg ?p] => destruct (phy_cfg p)
  end.
  - destruct (Z.eqb_spec (phyclk_ret dev) 0) as [Hclk|Hclk]; cbn [negb] in Hrun.
    + apply (Hsilent _ Hrun).
    + apply (Hlog (phyclk_ret dev, _) _ Hclk Hrun).
  - apply (Hlog (- EINVAL, _) _ ltac:(discriminate) Hrun).
Qed.

Lemma probe_leaves_registers_witness :
  let dev := mk_udevice 0xfdc50000 (Some [0x1234]) 1
               (Some rk3568_phy_cfgs) 0 (mk_clk 0 0) in
  let w := hw_reset {[ 0 := 0x1d1 ]} in
  grf (log_event w (EvDevErr MsgNoPhyCfg)) = grf w /\
  exists evs,
    trace (log_event w (EvDevErr MsgNoPhyCfg)) = trace w ++ evs /\
    (length evs <= 1)%nat /\ forallb is_dev_err evs = true /\
    (IS_ERR (syscon_grf dev) = false -> - EINVAL = 0 -> evs = []).
Proof.
  intros dev w.
  apply (probe_leaves_registers dev priv_auto w (- EINVAL)
           {| reg_base := 0xfdc50000; phyclk := mk_clk 0 0; phy_cfg := None |}
           (log_event w (EvDevErr MsgNoPhyCfg))).
  reflexivity.
Defined.

End ProbeOutcome.

(** ** Bind *)

Section Bind.

Lemma port_bind_events_no_warning nodes :
  ~ In EvSubnodeNotFound (port_bind_events nodes).
Proof.
  induction nodes as [|n nodes IH]; cbn; [tauto|].
  intros [H|H]; [discriminate | contradiction].
Qed.

(** The loop over subnodes whose ports all bind: one port child per
    visited subnode. *)
Lemma bind_subnodes_ok dev nodes : forall s,
  ports_bindable dev (subnodes_visited nodes) = true ->
  bind_subnodes dev nodes s =
  (0, {| children := children s ++ port_children (subnodes_visited nodes);
         bind_trace := bind_trace s ++ port_bind_events (subnodes_visited nodes) |}).
Proof.
  induction nodes as [|node rest IH]; intros s Hok.
  - cbn. rewrite !app_nil_r. destruct s; reflexivity.
  - cbn [bind_subnodes subnodes_visited] in *.
    destruct (ofnode_valid node); cbn [negb].
    + cbn [ports_bindable forallb] in Hok.
      apply andb_prop in Hok. destruct Hok as [Hret Hrest].
      unfold device_bind_driver_to_node. rewrite Hret. cbn [negb].
      rewrite IH by exact Hrest. cbn [children bind_trace].
      apply Z.eqb_eq in Hret. rewrite Hret.
      unfold port_children, port_bind_events. cbn [fmap list_fmap].
      rewrite <- !app_assoc. reflexivity.
    + cbn. rewrite !app_nil_r. destruct s; reflexivity.
Qed.

(** The loop stopped by the first subnode whose port does not bind: the
    nodes after it are not looked at. *)
Lemma bind_subnodes_fail dev pre node post : forall s,
  forallb ofnode_valid pre = true ->
  ports_bindable dev pre = true ->
  ofnode_valid node = true ->
  bind_outcome dev "rockchip_usb2phy_port" (ofnode_get_name node) <> 0 ->
  bind_subnodes dev (pre ++ node :: post) s =
  (bind_outcome dev "rockchip_usb2phy_port" (ofnode_get_name node),
   {| children := children s ++ port_children pre;
      bind_trace := bind_trace s ++ port_bind_events pre ++
        [EvBind "rockchip_usb2phy_port" (ofnode_get_name node)
           (bind_outcome dev "rockchip_usb2phy_port" (ofnode_get_name node));
         EvCannotBind (ofnode_get_name node) "rockchip_usb2phy_port"] |}).
Proof.
  induction pre as [|n pre IH]; intros s Hvalid Hpre Hnode Hfail.
  - cbn [app bind_subnodes port_children port_bind_events fmap list_fmap].
    rewrite Hnode. cbn [negb]. unfold device_bind_driver_to_node.
    apply Z.eqb_neq in Hfail. rewrite Hfail. cbn [negb].
    unfold dm_log. cbn. rewrite !app_nil_r, <- app_assoc. reflexivity.
  - cbn [forallb] in Hvalid. apply andb_prop in Hvalid.
    destruct Hvalid as [Hn Hvalid].
    cbn [ports_bindable forallb] in Hpre. apply andb_prop in Hpre.
    destruct Hpre as [Hret Hpre].
    cbn [app bind_subnodes]. rewrite Hn. cbn [negb].
    unfold device_bind_driver_to_node at 1. rewrite Hret. cbn [negb].
    rewrite (IH _ Hvalid Hpre Hnode Hfail). cbn [children bind_trace].
    apply Z.eqb_eq in Hret. rewrite Hret.
    unfold port_children, port_bind_events. cbn [fmap list_fmap].
    rewrite <- !app_assoc. reflexivity.
Qed.

(** The visited subnodes either all bind or split at the first whose port
    does not. *)
Lemma ports_bindable_split dev nodes :
  ports_bindable dev (subnodes_visited nodes) = false ->
  exists pre node post,
    nodes = pre ++ node :: post /\
    forallb ofnode_valid pre = true /\ ports_bindable dev pre = true /\
    ofnode_valid node = true /\
    bind_outcome dev "rockchip_usb2phy_port" (ofnode_get_name node) <> 0.
Proof.
  induction nodes as [|n rest IH]; intros H; [discriminate|].
  cbn [subnodes_visited] in H.
  destruct (ofnode_valid n) eqn:Hvalid; [|discriminate].
  cbn [ports_bindable forallb] in H.
  destruct (Z.eqb_spec
              (bind_outcome dev "rockchip_usb2phy_port" (ofnode_get_name n)) 0)
    as [Hn|Hn].
  - cbn [andb] in H.
    destruct (IH H) as (pre & node & post & -> & Hv & Hpre & Hnode & Hfail).
    exists (n :: pre), node, post. split; [reflexivity|].
    cbn [forallb ports_bindable]. rewrite Hvalid, Hn. cbn.
    repeat split; assumption.
  - exists [], n, rest. repeat split; assumption.
Qed.

(** X17.  Bind is all or nothing.  The loop visits the subnodes up to the
    first one that is not valid (such a node ends the iteration, it is no
    error: the "subnode not found" branch is never taken).  Bind returns 0
    exactly when the port child of every visited subnode binds and the
    clock child binds; then the children are the former ones, one port
    child per visited subnode in order and the clock child last.
    Otherwise it returns a nonzero error and the device is left with no
    child at all. *)
Theorem bind_all_or_nothing dev s :
  let '(e, s') := rockchip_usb2phy_bind dev s in
  (e = 0 <->
   ports_bindable dev (subnodes_visited (subnodes dev)) = true /\
   bind_outcome dev "rockchip_usb2phy_clock"
     (dev_read_string_index dev 0 "clk_usbphy_480m") = 0) /\
  (e = 0 ->
   children s' =
   children s ++ port_children (subnodes_visited (subnodes dev))
     ++ [clock_child dev]) /\
  (e <> 0 -> children s' = []) /\
  (In EvSubnodeNotFound (bind_trace s') -> In EvSubnodeNotFound (bind_trace s)).
Proof.
  unfold rockchip_usb2phy_bind.
  destruct (ports_bindable dev (subnodes_visited (subnodes dev))) eqn:Hports.
  - rewrite (bind_subnodes_ok dev (subnodes dev) s Hports). cbn [negb Z.eqb].
    unfold device_bind_driver_to_node.
    destruct (Z.eqb_spec
                (bind_outcome dev "rockchip_usb2phy_clock"
                   (dev_read_string_index dev 0 "clk_usbphy_480m")) 0)
      as [Hclk|Hclk]; cbn [negb].
    + split; [split; [intros _; split; [reflexivity | assumption] | reflexivity]|].
      split; [|split; [intros H; contradiction|]].
      * intros _. cbn [children]. unfold clock_child.
        rewrite <- app_assoc. reflexivity.
      * cbn [bind_trace]. rewrite !in_app_iff. cbn.
        intros [[H|H]|[H|H]]; try assumption; try discriminate;
          try contradiction.
        exfalso. exact (port_bind_events_no_warning _ H).
    + split; [split; [intros H; contradiction | intros [_ H]; contradiction]|].
      split; [intros H; contradiction|]. split; [reflexivity|].
      unfold device_chld_unbind, dm_log. cbn [bind_trace].
      rewrite !in_app_iff. cbn.
      intros [[[[H|H]|[H|H]]|[H|H]]|[H|H]]; try assumption; try discriminate;
        try contradiction.
      exfalso. exact (port_bind_events_no_warning _ H).
  - destruct (ports_bindable_split dev (subnodes dev) Hports)
      as (pre & node & post & Hnodes & Hvalid & Hpre & Hnode & Hfail).
    rewrite Hnodes, (bind_subnodes_fail dev pre node post s Hvalid Hpre Hnode Hfail).
    pose proof Hfail as Hfail'. apply Z.eqb_neq in Hfail'.
    rewrite Hfail'. cbn [negb].
    split; [split; [intros H; contradiction | intros [H _]; discriminate]|].
    split; [intros H; contradiction|]. split; [reflexivity|].
    unfold device_chld_unbind. cbn [bind_trace].
    rewrite !in_app_iff. cbn.
    intros [[H|[H|[H|[H|H]]]]|[H|H]]; try assumption; try discriminate;
      try contradiction.
    exfalso. exact (port_bind_events_no_warning _ H).
Qed.

Lemma bind_all_or_nothing_witness :
  let dev := mk_bind_device
               [mk_ofnode true "otg-port"; mk_ofnode true "host-port"]
               (Some ["usb480m_phy"%string])
               (fun _ _ => 0) in
  let '(e, s') := rockchip_usb2phy_bind dev (mk_dm [] []) in
  (e = 0 <->
   ports_bindable dev (subnodes_visited (subnodes dev)) = true /\
   bind_outcome dev "rockchip_usb2phy_clock"
     (dev_read_string_index dev 0 "clk_usbphy_480m") = 0) /\
  (e = 0 ->
   children s' =
   [] ++ port_children (subnodes_visited (subnodes dev)) ++ [clock_child dev]) /\
  (e <> 0 -> children s' = []) /\
  (In EvSubnodeNotFound (bind_trace s') -> In EvSubnodeNotFound []).
Proof.
  intros dev. exact (bind_all_or_nothing dev (mk_dm [] [])).
Defined.

(** X18.  When the port child of a visited subnode does not bind, bind
    returns what binding that port returned, for the first such subnode;
    the later subnodes and the clock child are never bound: the binds
    attempted are those of the subnodes up to the failing one, and the last
    thing bind does is to unbind all children. *)
Theorem bind_stops_at_first_failure dev pre node post s :
  subnodes dev = pre ++ node :: post ->
  forallb ofnode_valid pre = true ->
  ports_bindable dev pre = true ->
  ofnode_valid node = true ->
  bind_outcome dev "rockchip_usb2phy_port" (ofnode_get_name node) <> 0 ->
  exists evs,
    rockchip_usb2phy_bind dev s =
      (bind_outcome dev "rockchip_usb2phy_port" (ofnode_get_name node),
       {| children := [];
          bind_trace := bind_trace s ++ evs ++ [EvUnbindChildren] |}) /\
    bind_attempts evs =
      port_children pre ++
      [("rockchip_usb2phy_port"%string, ofnode_get_name node)].
Proof.
  intros Hnodes Hvalid Hpre Hnode Hfail. unfold rockchip_usb2phy_bind.
  rewrite Hnodes, (bind_subnodes_fail dev pre node post s Hvalid Hpre Hnode Hfail).
  pose proof Hfail as Hfail'. apply Z.eqb_neq in Hfail'.
  rewrite Hfail'. cbn [negb].
  exists (port_bind_events pre ++
          [EvBind "rockchip_usb2phy_port" (ofnode_get_name node)
             (bind_outcome dev "rockchip_usb2phy_port" (ofnode_get_name node));
           EvCannotBind (ofnode_get_name node) "rockchip_usb2phy_port"]).
  split.
  - unfold device_chld_unbind. cbn [bind_trace].
    rewrite <- !app_assoc. reflexivity.
  - assert (forall l t, bind_attempts (port_bind_events l ++ t)
                        = port_children l ++ bind_attempts t) as Happ.
    { induction l as [|n l IH]; intros t; [reflexivity|].
      cbn. rewrite IH. reflexivity. }
    rewrite Happ. reflexivity.
Qed.

Lemma bind_stops_at_first_failure_witness :
  let dev := mk_bind_device
               [mk_ofnode true "otg-port"; mk_ofnode true "host-port"]
               None
               (fun drv name => if String.eqb name "host-port" then - 12 else 0) in
  exists evs,
    rockchip_usb2phy_bind dev (mk_dm [] []) =
      (- 12, {| children := [];
                bind_trace := [] ++ evs ++ [EvUnbindChildren] |}) /\
    bind_attempts evs =
      [("rockchip_usb2phy_port"%string, "otg-port"%string);
       ("rockchip_usb2phy_port"%string, "host-port"%string)].
Proof.
  intros dev.
  apply (bind_stops_at_first_failure dev [mk_ofnode true "otg-port"]
           (mk_ofnode true "host-port") [] (mk_dm [] []));
    try reflexivity.
  discriminate.
Defined.

End Bind.

(** ** Absent fields *)

Section AbsentFields.

Import Tables.

Lemma reg_absent_unset r : reg_absent r = true -> r = reg_unset.
Proof.
  destruct r as [o e s d en]. unfold reg_absent. cbn. intros H.
  repeat (apply andb_prop in H; destruct H as [H ?]).
  repeat match goal with
  | H : (_ =? _) = true |- _ => apply Z.eqb_eq in H
  end.
  subst. reflexivity.
Qed.

Lemma reg_unset_wf : reg_wf reg_unset /\ reg_writeable reg_unset.
Proof. apply reg_okb_sound. reflexivity. Qed.

(** X20.  The driver does not skip a field the table leaves out.  When the
    detect-enable field of the port is absent, a successful [init] stores to
    the register at offset 0 and leaves its bit 0 cleared, whatever the
    register held. *)
Theorem init_absent_field_clears_bit0 base c cfg p w :
  let priv := probed base c cfg in
  reg_absent (bvalid_det_en (port_cfgs cfg (id p))) = true ->
  clk_enable_ret c = 0 \/ clk_enable_ret c = - ENOSYS ->
  exists w',
    rockchip_usb2phy_init priv p w = Some (0, w') /\
    In (0x00010000, base + 0) (stores (events_of (rockchip_usb2phy_init priv p) w)) /\
    Z.testbit (reg_content (grf w') (base + 0)) 0 = false.
Proof.
  intros priv Habs Hok. subst priv.
  apply reg_absent_unset in Habs.
  destruct (init_ok_run base c cfg p w Hok) as [t Hinit].
  destruct (init_run_ok base c cfg p w Hok) as [g Hrun]. cbv zeta in Hrun.
  eexists. split; [exact Hinit|]. split.
  - erewrite events_of_appended by (try exact Hrun; reflexivity).
    rewrite Habs. cbn. right. left. reflexivity.
  - cbn [grf]. rewrite Habs. unfold store_word at 1. cbn [offset reg_unset].
    rewrite reg_content_insert_eq.
    rewrite masked_store_field by (try apply reg_unset_wf; lia).
    reflexivity.
Qed.

Lemma init_absent_field_clears_bit0_witness :
  let priv := probed 0 (mk_clk 0 0) (nth_cfg rk3568_phy_cfgs 0) in
  let p := mk_phy "host-port" USB2PHY_PORT_HOST in
  let w := hw_reset {[ 0 := 0x1d1 ]} in
  exists w',
    rockchip_usb2phy_init priv p w = Some (0, w') /\
    In (0x00010000, 0 + 0) (stores (events_of (rockchip_usb2phy_init priv p) w)) /\
    Z.testbit (reg_content (grf w') (0 + 0)) 0 = false.
Proof.
  intros priv p w.
  apply (init_absent_field_clears_bit0 0 (mk_clk 0 0)
           (nth_cfg rk3568_phy_cfgs 0) p w).
  - reflexivity.
  - left. reflexivity.
Defined.

End AbsentFields.
